(** * The orchestrator of run_system.py, embedded and verified

    The script starts a fixed set of worker processes, watches them, and
    stops them.  Everything it does goes through the operating system
    (spawning, sleeping, polling, signalling), so the embedding is a state and
    exception monad over an explicit record of what the system answers at each
    call, and it keeps the chronological trace of the calls that were made. *)

From Stdlib Require Import String List ZArith Bool Arith Lia.
Import ListNotations.
Local Open Scope string_scope.
Local Open Scope list_scope.

(** ** Data *)

(** The exceptions that occur.  [KeyboardInterrupt] derives from
    [BaseException] only; [OSError] stands for the [Exception] subclasses that
    process creation and signalling raise. *)
Inductive exn : Type :=
| KeyboardInterrupt
| OSError.

(** What [except Exception] catches. *)
Definition is_Exception (e : exn) : bool :=
  match e with
  | KeyboardInterrupt => false
  | OSError => true
  end.

(** What [except KeyboardInterrupt] catches. *)
Definition is_KeyboardInterrupt (e : exn) : bool :=
  match e with
  | KeyboardInterrupt => true
  | OSError => false
  end.

(** Outcome of running a piece of the program: a value, an exception in
    flight, or [Pending] when the monitoring loop has not stopped within the
    number of iterations the run was given. *)
Inductive result (A : Type) : Type :=
| Ok (a : A)
| Raise (e : exn)
| Pending.
Arguments Ok {A} a.
Arguments Raise {A} e.
Arguments Pending {A}.

(** A [subprocess.Popen] object: the process it owns and the command line it
    was created with. *)
Record Popen : Type := mkPopen { pid : nat; args : list string }.

(** A [(name, process)] pair, and the lists of them the script passes around. *)
Definition proc : Type := (string * Popen)%type.
Definition procs : Type := list proc.

Inductive level : Type := DEBUG | INFO | ERROR.

(** The records handed to the logger.  Those with arguments keep them apart
    from the text. *)
Inductive message : Type :=
| Text (s : string)
| Starting (node_name : string)
| Waiting
| CriticalExit (svc_name : string) (returncode : Z)
| ClientFinished (name : string) (ret : Z)
| AllClientsFinished
| AlreadyStopped (name : string).

(** One entry of the trace.  System calls carry their answer. *)
Inductive event : Type :=
| EvLog (lvl : level) (m : message)
| EvSigint
| EvSpawn (cmd : list string) (child : option nat)
| EvSleep (ms : nat)
| EvPoll (p : nat) (ret : option Z)
| EvTerminate (p : nat) (ok : bool)
| EvKill (p : nat) (ok : bool).

(** The system the script runs on.  Calls are numbered in the order they are
    made; the fields say what happens at call number [n]:
    whether SIGINT is delivered there (the handler raises
    [KeyboardInterrupt] in the main flow), whether a process creation fails,
    what exit status a poll of a process reports, and whether [terminate] or
    [kill] raises.  Signals are delivered at calls, where the script spends
    its time; a SIGINT that surfaces in the code after the last call of the
    guarded part of [main] is [sigint_here].  [executable] is
    [sys.executable]. *)
Record Env : Type := mkEnv {
  executable : string;
  interrupted : nat -> bool;
  spawn_error : nat -> bool;
  exit_status : nat -> nat -> option Z;
  signal_error : nat -> bool
}.

(** The local variables of [main] that its [finally] clause looks up with
    [locals()]: unbound until the assignment has run. *)
Record Frame : Type := mkFrame {
  service_procs : option procs;
  client_procs : option procs
}.

Record State : Type := mkState {
  tick : nat;
  next_pid : nat;
  frame : Frame;
  trace : list event
}.

Definition init : State := mkState 0 0 (mkFrame None None) [].

(** ** The monad *)

Definition M (A : Type) : Type := State -> result A * State.

Definition ret {A : Type} (a : A) : M A := fun s => (Ok a, s).

Definition bind {A B : Type} (m : M A) (k : A -> M B) : M B :=
  fun s =>
    match m s with
    | (Ok a, s') => k a s'
    | (Raise e, s') => (Raise e, s')
    | (Pending, s') => (Pending, s')
    end.

Declare Scope run_scope.
Delimit Scope run_scope with run.
Notation "x <- m ;; k" := (bind m (fun x => k))
  (at level 100, m at next level, right associativity) : run_scope.
Notation "m ;; k" := (bind m (fun _ => k))
  (at level 100, right associativity) : run_scope.
Local Open Scope run_scope.

(** [try: body / except <catches>: handler]. *)
Definition try_except {A : Type} (catches : exn -> bool) (body handler : M A) : M A :=
  fun s =>
    match body s with
    | (Raise e, s') => if catches e then handler s' else (Raise e, s')
    | r => r
    end.

(** [try: body / finally: fin]: [fin] runs however [body] ended, and an
    exception of [fin] replaces the outcome of [body]. *)
Definition try_finally {A : Type} (body : M A) (fin : M unit) : M A :=
  fun s =>
    match body s with
    | (Pending, s') => (Pending, s')
    | (r, s') =>
        match fin s' with
        | (Ok _, s'') => (r, s'')
        | (Raise e, s'') => (Raise e, s'')
        | (Pending, s'') => (Pending, s'')
        end
    end.

Definition emit (e : event) (s : State) : State :=
  mkState (tick s) (next_pid s) (frame s) (trace s ++ [e]).

Definition advance (e : event) (s : State) : State :=
  mkState (S (tick s)) (next_pid s) (frame s) (trace s ++ [e]).

Definition log (lvl : level) (m : message) : M unit :=
  fun s => (Ok tt, emit (EvLog lvl m) s).

Definition rule : string := "============================================================".

(** The line feed that starts some of the messages of [main]. *)
Definition nl : string := String (Ascii.ascii_of_nat 10) EmptyString.

(** [dict(pairs)], [d.items()] and [d.pop(k, None)] on a dictionary kept as
    the list of its items in insertion order. *)
Fixpoint dict_set (d : procs) (k : string) (v : Popen) : procs :=
  match d with
  | [] => [(k, v)]
  | (k', v') :: d' =>
      if String.eqb k k' then (k', v) :: d' else (k', v') :: dict_set d' k v
  end.

Definition dict (pairs : procs) : procs :=
  fold_left (fun d kv => dict_set d (fst kv) (snd kv)) pairs [].

Fixpoint dict_pop (d : procs) (k : string) : procs :=
  match d with
  | [] => []
  | (k', v') :: d' =>
      if String.eqb k k' then d' else (k', v') :: dict_pop d' k
  end.

(** ** Configuration *)

Definition NODES : list (string * string) :=
  [ ("Q1", "q1_node.py"); ("D", "d_node.py");
    ("P11", "p1x_service.py"); ("P12", "p1x_service.py"); ("P13", "p1x_service.py");
    ("Q21", "q2x_node.py"); ("Q22", "q2x_node.py"); ("Q23", "q2x_node.py");
    ("P21", "p2x_service.py"); ("P22", "p2x_service.py"); ("P23", "p2x_service.py") ].

Definition CLIENT_NODES : list (string * string) :=
  [ ("K1", "client.py"); ("K2", "client.py") ].

(** ** The program *)

Section Program.

Variable env : Env.

(** A call into the system: if SIGINT is delivered at this call, the handler
    raises [KeyboardInterrupt] in its place; otherwise the call is made. *)
Definition syscall {A : Type} (call : nat -> State -> result A * State) : M A :=
  fun s =>
    if interrupted env (tick s)
    then (Raise KeyboardInterrupt, advance EvSigint s)
    else call (tick s) s.

Definition sleep (ms : nat) : M unit :=
  syscall (fun _ s => (Ok tt, advance (EvSleep ms) s)).

(** [subprocess.Popen(cmd, text=True)]. *)
Definition Popen_new (cmd : list string) : M Popen :=
  syscall (fun n s =>
    if spawn_error env n
    then (Raise OSError, advance (EvSpawn cmd None) s)
    else (Ok (mkPopen (next_pid s) cmd),
          mkState (S (tick s)) (S (next_pid s)) (frame s)
                  (trace s ++ [EvSpawn cmd (Some (next_pid s))]))).

(** [proc.poll()]; the value is also what [proc.returncode] holds afterwards. *)
Definition poll (p : Popen) : M (option Z) :=
  syscall (fun n s =>
    let r := exit_status env n (pid p) in
    (Ok r, advance (EvPoll (pid p) r) s)).

Definition terminate (p : Popen) : M unit :=
  syscall (fun n s =>
    if signal_error env n
    then (Raise OSError, advance (EvTerminate (pid p) false) s)
    else (Ok tt, advance (EvTerminate (pid p) true) s)).

Definition kill (p : Popen) : M unit :=
  syscall (fun n s =>
    if signal_error env n
    then (Raise OSError, advance (EvKill (pid p) false) s)
    else (Ok tt, advance (EvKill (pid p) true) s)).

Definition start_node (node_name script : string) : M Popen :=
  log INFO (Starting node_name) ;;
  Popen_new [executable env; script; node_name].

(** The loop of [start_group]; [started] is the list [procs] built so far. *)
Fixpoint start_group_from (group : list (string * string)) (started : procs) : M procs :=
  match group with
  | [] => ret started
  | (node_name, script) :: rest =>
      p <- start_node node_name script ;;
      let started := started ++ [(node_name, p)] in
      sleep 500 ;;
      start_group_from rest started
  end.

Definition start_group (group : list (string * string)) : M procs :=
  start_group_from group [].

Fixpoint terminate_all (processes : procs) : M unit :=
  match processes with
  | [] => ret tt
  | (name, p) :: rest =>
      try_except is_Exception (terminate p) (log DEBUG (AlreadyStopped name)) ;;
      terminate_all rest
  end.

Fixpoint kill_all (processes : procs) : M unit :=
  match processes with
  | [] => ret tt
  | (name, p) :: rest =>
      try_except is_Exception (kill p) (ret tt) ;;
      kill_all rest
  end.

Definition stop_processes (processes : procs) : M unit :=
  terminate_all processes ;;
  sleep 2000 ;;
  kill_all processes.

(** The loop over the services in one iteration of the monitor; [true] when it
    executed the [return] of [wait_for_clients]. *)
Fixpoint check_services (services : procs) : M bool :=
  match services with
  | [] => ret false
  | (svc_name, svc_proc) :: rest =>
      r <- poll svc_proc ;;
      match r with
      | Some returncode =>
          log ERROR (CriticalExit svc_name returncode) ;;
          ret true
      | None => check_services rest
      end
  end.

(** The loop over [remaining.items()]; gives the list [finished]. *)
Fixpoint track_finished (items : procs) (finished : list string) : M (list string) :=
  match items with
  | [] => ret finished
  | (name, p) :: rest =>
      r <- poll p ;;
      match r with
      | Some code =>
          log INFO (ClientFinished name code) ;;
          track_finished rest (finished ++ [name])
      | None => track_finished rest finished
      end
  end.

(** The [while remaining:] loop, run for at most [fuel] iterations; [true]
    when the function returned from inside the loop. *)
Fixpoint wait_loop (fuel : nat) (services remaining : procs) : M bool :=
  match remaining with
  | [] => ret false
  | _ :: _ =>
      match fuel with
      | O => fun s => (Pending, s)
      | S fuel' =>
          sleep 1000 ;;
          returned <- check_services services ;;
          if returned : bool then ret true
          else
            finished <- track_finished remaining [] ;;
            wait_loop fuel' services (fold_left dict_pop finished remaining)
      end
  end.

(** [wait_for_clients] from its loop on, entered with the pending set
    [remaining]. *)
Definition monitor (fuel : nat) (services remaining : procs) : M unit :=
  returned <- wait_loop fuel services remaining ;;
  if returned : bool then ret tt
  else log INFO AllClientsFinished.

Definition wait_for_clients (fuel : nat) (clients services : procs) : M unit :=
  log INFO Waiting ;;
  monitor fuel services (dict clients).

Definition set_service_procs (v : procs) : M unit :=
  fun s => (Ok tt, mkState (tick s) (next_pid s)
                           (mkFrame (Some v) (client_procs (frame s))) (trace s)).

Definition set_client_procs (v : procs) : M unit :=
  fun s => (Ok tt, mkState (tick s) (next_pid s)
                           (mkFrame (service_procs (frame s)) (Some v)) (trace s)).

Definition bound (v : option procs) : procs :=
  match v with
  | Some l => l
  | None => []
  end.

(** The body of the [try] of [main].  The handler that [main] installs for
    SIGINT before it raises [KeyboardInterrupt], which is what [syscall] does
    on a delivered signal. *)
Definition main_try (fuel : nat) : M unit :=
  log INFO (Text rule) ;;
  log INFO (Text "STARTING DISTRIBUTED SYSTEM") ;;
  log INFO (Text rule) ;;
  services <- start_group NODES ;;
  set_service_procs services ;;
  log INFO (Text (nl ++ "All system nodes started. Waiting for initialization...")) ;;
  sleep 3000 ;;
  log INFO (Text (nl ++ rule)) ;;
  log INFO (Text "STARTING CLIENTS") ;;
  log INFO (Text rule) ;;
  clients <- start_group CLIENT_NODES ;;
  set_client_procs clients ;;
  log INFO (Text (nl ++ "All clients started. System is now running.")) ;;
  wait_for_clients fuel clients services.

(** The [finally] clause of [main]. *)
Definition main_finally : M unit :=
  log INFO (Text (nl ++ rule)) ;;
  log INFO (Text "SHUTTING DOWN DISTRIBUTED SYSTEM") ;;
  log INFO (Text rule) ;;
  (fun s => stop_processes (bound (client_procs (frame s))) s) ;;
  (fun s => stop_processes (bound (service_procs (frame s))) s) ;;
  log INFO (Text "All nodes stopped.").

Definition main (fuel : nat) : M unit :=
  try_finally
    (try_except is_KeyboardInterrupt
       (main_try fuel)
       (log INFO (Text "Shutdown requested by user.")))
    main_finally.

End Program.

(** Exit status of the interpreter after [main()]: 0 when [main] returns, the
    interpreter's status for an uncaught exception when one leaves it (that of
    a death by SIGINT for [KeyboardInterrupt]); none while the run has not
    ended. *)
Definition exit_status_of (r : result unit) : option Z :=
  match r with
  | Ok _ => Some 0%Z
  | Raise KeyboardInterrupt => Some 130%Z
  | Raise OSError => Some 1%Z
  | Pending => None
  end.

(** ** Reading a trace *)

(** The calls of a trace, without their answers and without the log records. *)
Inductive request : Type :=
| RSpawn (cmd : list string)
| RSleep (ms : nat)
| RPoll (p : nat)
| RTerminate (p : nat)
| RKill (p : nat).

Definition request_of (e : event) : list request :=
  match e with
  | EvLog _ _ => []
  | EvSigint => []
  | EvSpawn cmd _ => [RSpawn cmd]
  | EvSleep ms => [RSleep ms]
  | EvPoll p _ => [RPoll p]
  | EvTerminate p _ => [RTerminate p]
  | EvKill p _ => [RKill p]
  end.

Definition requests (t : list event) : list request := flat_map request_of t.

Definition record_of (e : event) : list (level * message) :=
  match e with
  | EvLog lvl m => [(lvl, m)]
  | _ => []
  end.

(** The log records of a trace. *)
Definition records (t : list event) : list (level * message) := flat_map record_of t.

Definition pids (l : procs) : list nat := map (fun np => pid (snd np)) l.
Definition names (l : procs) : list string := map fst l.

(** The calls of one two-phase stop of [l]: a graceful request to each handle
    in order, the grace period, a forced kill to each handle in order. *)
Definition stop_requests (l : procs) : list request :=
  map RTerminate (pids l) ++ [RSleep 2000] ++ map RKill (pids l).

(** The calls of a start of [group] in which every creation succeeds. *)
Definition start_requests (exe : string) (group : list (string * string)) : list request :=
  flat_map (fun ns => [RSpawn [exe; snd ns; fst ns]; RSleep 500]) group.

(** The two ways [wait_for_clients] returns.  The function itself returns
    [None] on both; which [return] was taken shows in the last record it
    logged. *)
Inductive CompletionReason : Type :=
| ClientsFinished
| ServiceFailed (name : string) (code : Z).

Definition outcome (t : list event) : option CompletionReason :=
  match last t EvSigint with
  | EvLog INFO AllClientsFinished => Some ClientsFinished
  | EvLog ERROR (CriticalExit name code) => Some (ServiceFailed name code)
  | _ => None
  end.

(** The clients a trace records as finished. *)
Definition finished_of (e : event) : list string :=
  match e with
  | EvLog INFO (ClientFinished name _) => [name]
  | _ => []
  end.

Definition observed (t : list event) : list string := flat_map finished_of t.

(** The process creations of a trace. *)
Definition spawn_of (e : event) : list (list string) :=
  match e with
  | EvSpawn cmd _ => [cmd]
  | _ => []
  end.

Definition spawns (t : list event) : list (list string) := flat_map spawn_of t.

(** The polls of a list of handles that all report a running process. *)
Definition polls_running (l : procs) : list event :=
  map (fun np => EvPoll (pid (snd np)) None) l.

(** From [s] to [s'] the run added [new] to the trace, created no process
    and left the variables of [main] alone. *)
Definition passive (s s' : State) (new : list event) : Prop :=
  trace s' = trace s ++ new /\ spawns new = [] /\
  next_pid s' = next_pid s /\ frame s' = frame s.

(** A computation in which a delivered SIGINT always comes out as
    [KeyboardInterrupt], and [KeyboardInterrupt] comes from nothing else. *)
Definition interrupt_raises {A : Type} (m : M A) : Prop :=
  forall s r s', m s = (r, s') ->
  exists new, trace s' = trace s ++ new /\
              (In EvSigint new <-> r = Raise KeyboardInterrupt).

(** The run of [main] at the point where its [finally] clause takes over:
    how the [try] body ended, the state it left, the two lists the clause
    finds, and the number of calls stopping them takes. *)
Definition guarded_result (env : Env) (fuel : nat) : result unit :=
  fst (main_try env fuel init).

Definition at_shutdown (env : Env) (fuel : nat) : State :=
  snd (main_try env fuel init).

Definition client_list (env : Env) (fuel : nat) : procs :=
  bound (client_procs (frame (at_shutdown env fuel))).

Definition service_list (env : Env) (fuel : nat) : procs :=
  bound (service_procs (frame (at_shutdown env fuel))).

Definition shutdown_calls (env : Env) (fuel : nat) : nat :=
  (2 * length (client_list env fuel) + 1) + (2 * length (service_list env fuel) + 1).

(** Whether a SIGINT was delivered in a trace. *)
Definition is_sigint (e : event) : bool :=
  match e with
  | EvSigint => true
  | _ => false
  end.

Definition interrupted_in (t : list event) : bool := existsb is_sigint t.

(** The processes a trace created. *)
Definition child_of (e : event) : list nat :=
  match e with
  | EvSpawn _ (Some c) => [c]
  | _ => []
  end.

Definition children (t : list event) : list nat := flat_map child_of t.

(** The signals of a list of calls. *)
Definition is_signal (q : request) : bool :=
  match q with
  | RTerminate _ | RKill _ => true
  | _ => false
  end.

Section Observations.

Variable env : Env.

(** No SIGINT at the [m] calls from call number [n] on. *)
Fixpoint quiet (n m : nat) : bool :=
  match m with
  | O => true
  | S m' => negb (interrupted env n) && quiet (S n) m'
  end.

(** Polled one after the other from call number [n] on, every handle of [l]
    is reported running. *)
Fixpoint all_running (n : nat) (l : procs) : bool :=
  match l with
  | [] => true
  | (_, p) :: l' =>
      match exit_status env n (pid p) with
      | None => all_running (S n) l'
      | Some _ => false
      end
  end.

(** Polled one after the other from call number [n] on, every handle of [l]
    is reported exited. *)
Fixpoint all_exited (n : nat) (l : procs) : bool :=
  match l with
  | [] => true
  | (_, p) :: l' =>
      match exit_status env n (pid p) with
      | None => false
      | Some _ => all_exited (S n) l'
      end
  end.

(** The names of the handles of [l] that a poll, made one after the other
    from call number [n] on, reports exited; and what that round of polls
    adds to the trace when no SIGINT arrives. *)
Fixpoint exited (n : nat) (l : procs) : list string :=
  match l with
  | [] => []
  | (name, p) :: l' =>
      match exit_status env n (pid p) with
      | Some _ => name :: exited (S n) l'
      | None => exited (S n) l'
      end
  end.

Fixpoint track_trace (n : nat) (l : procs) : list event :=
  match l with
  | [] => []
  | (name, p) :: l' =>
      match exit_status env n (pid p) with
      | Some code => [EvPoll (pid p) (Some code); EvLog INFO (ClientFinished name code)]
      | None => [EvPoll (pid p) None]
      end
      ++ track_trace (S n) l'
  end.

(** Every second call from call number [n] on, [m] of them, is a process
    creation that succeeds. *)
Fixpoint spawns_succeed (n m : nat) : bool :=
  match m with
  | O => true
  | S m' => negb (spawn_error env n) && spawns_succeed (S (S n)) m'
  end.

(** The names of the handles of [l] whose signal, sent one after the other
    from call number [n] on, raises. *)
Fixpoint refused (n : nat) (l : procs) : list string :=
  match l with
  | [] => []
  | (name, _) :: l' =>
      if signal_error env n then name :: refused (S n) l' else refused (S n) l'
  end.

(** What [terminate_all], [kill_all] and [stop_processes] add to the trace
    when they are entered at call number [n] and no SIGINT arrives. *)
Fixpoint terminate_trace (n : nat) (l : procs) : list event :=
  match l with
  | [] => []
  | (name, p) :: l' =>
      (if signal_error env n
       then [EvTerminate (pid p) false; EvLog DEBUG (AlreadyStopped name)]
       else [EvTerminate (pid p) true])
      ++ terminate_trace (S n) l'
  end.

Fixpoint kill_trace (n : nat) (l : procs) : list event :=
  match l with
  | [] => []
  | (_, p) :: l' =>
      EvKill (pid p) (negb (signal_error env n)) :: kill_trace (S n) l'
  end.

Definition stop_trace (n : nat) (l : procs) : list event :=
  terminate_trace n l ++ [EvSleep 2000] ++ kill_trace (n + length l + 1) l.

(** What [start_group] adds to the trace, entered at call number [n] with
    process number [c] the next to be given, when every creation succeeds
    and no SIGINT arrives; and the handles it builds. *)
Fixpoint start_trace (c : nat) (group : list (string * string)) : list event :=
  match group with
  | [] => []
  | (node_name, script) :: rest =>
      [EvLog INFO (Starting node_name);
       EvSpawn [executable env; script; node_name] (Some c);
       EvSleep 500]
      ++ start_trace (S c) rest
  end.

Fixpoint started_procs (c : nat) (group : list (string * string)) : procs :=
  match group with
  | [] => []
  | (node_name, script) :: rest =>
      (node_name, mkPopen c [executable env; script; node_name])
      :: started_procs (S c) rest
  end.

End Observations.

(** Two systems a monitor cannot tell apart: the same interrupts and the same
    answers to polls. *)
Definition same_observations (e1 e2 : Env) : Prop :=
  (forall n, interrupted e1 n = interrupted e2 n) /\
  (forall n p, exit_status e1 n p = exit_status e2 n p).

(** ** Systems and handles used as examples *)

(** Nothing happens: no signal, no failure, nobody exits. *)
Definition calm : Env :=
  mkEnv "python3" (fun _ => false) (fun _ => false) (fun _ _ => None) (fun _ => false).

Definition worker (n : nat) (name : string) : proc :=
  (name, mkPopen n ["python3"; "node.py"; name]).

(** The forced kill of the third call raises. *)
Definition kill_refused : Env :=
  mkEnv "python3" (fun _ => false) (fun _ => false) (fun _ _ => None)
        (fun n => Nat.eqb n 2).

(** Every signal raises: the processes are gone already. *)
Definition all_gone : Env :=
  mkEnv "python3" (fun _ => false) (fun _ => false) (fun _ _ => Some 0%Z)
        (fun _ => true).

(** Process 1 has exited with status 1 and process 2 with status 0. *)
Definition service_and_client_exited : Env :=
  mkEnv "python3" (fun _ => false) (fun _ => false)
        (fun _ p => if Nat.eqb p 1 then Some 1%Z else if Nat.eqb p 2 then Some 0%Z else None)
        (fun _ => false).

(** Process 1 has exited with status 7 before the first call; process 0
    exits with status 3 after it. *)
Definition later_listed_exits_first : Env :=
  mkEnv "python3" (fun _ => false) (fun _ => false)
        (fun n p => if Nat.eqb p 1 then Some 7%Z
                    else if (Nat.eqb p 0) && (Nat.leb 1 n) then Some 3%Z else None)
        (fun _ => false).

(** Process 2 exits with status 0 between the fourth and the fifth call. *)
Definition client_exits_on_second_poll : Env :=
  mkEnv "python3" (fun _ => false) (fun _ => false)
        (fun n p => if Nat.eqb p 2 && Nat.leb 4 n then Some 0%Z else None)
        (fun _ => false).

(** The creation of the second node, the distribution node, fails. *)
Definition second_spawn_fails : Env :=
  mkEnv "python3" (fun _ => false) (fun n => Nat.eqb n 2) (fun _ _ => None) (fun _ => false).

(** The creation of the second client fails. *)
Definition second_client_spawn_fails : Env :=
  mkEnv "python3" (fun _ => false) (fun n => Nat.eqb n 25) (fun _ _ => None) (fun _ => false).

(** Both clients have exited at the first poll; SIGINT arrives at call [at]. *)
Definition clients_done_sigint (at_call : nat) : Env :=
  mkEnv "python3" (fun n => Nat.eqb n at_call) (fun _ => false)
        (fun _ p => if Nat.leb 11 p then Some 0%Z else None)
        (fun _ => false).

(** Nobody exits; SIGINT arrives at call [at]. *)
Definition sigint_at (at_call : nat) : Env :=
  mkEnv "python3" (fun n => Nat.eqb n at_call) (fun _ => false) (fun _ _ => None)
        (fun _ => false).

(** ** Further readings of a trace and of a run *)

(** Whether a process creation failed in a trace. *)
Definition is_failed_spawn (e : event) : bool :=
  match e with
  | EvSpawn _ None => true
  | _ => false
  end.

Definition failed_in (t : list event) : bool := existsb is_failed_spawn t.

(** What leaves a computation: every entry it adds to the trace satisfies
    [P], and every exception it raises satisfies [E]. *)
Definition emits (P : event -> Prop) (E : exn -> Prop) {A : Type} (m : M A) : Prop :=
  forall s r s', m s = (r, s') ->
  (exists new, trace s' = trace s ++ new /\ Forall P new) /\
  (forall e, r = Raise e -> E e).

(** The calls of the monitor: the one-second sleep and the polls of the
    handles it was given. *)
Definition monitor_call (services clients : procs) (q : request) : Prop :=
  q = RSleep 1000 \/
  exists p, q = RPoll p /\ (In p (pids services) \/ In p (pids clients)).

Definition monitor_event (services clients : procs) (e : event) : Prop :=
  match e with
  | EvLog _ _ => True
  | EvSigint => True
  | EvSleep ms => ms = 1000
  | EvPoll p _ => In p (pids services) \/ In p (pids clients)
  | _ => False
  end.

(** The calls of the two starts of [main] with the pause between them. *)
Definition startup_requests (exe : string) : list request :=
  start_requests exe NODES ++ [RSleep 3000] ++ start_requests exe CLIENT_NODES.

Section Pending.

Variable env : Env.

(** The handles of [l] that a poll, made one after the other from call
    number [n] on, reports running. *)
Fixpoint still_running (n : nat) (l : procs) : procs :=
  match l with
  | [] => []
  | (name, p) :: l' =>
      match exit_status env n (pid p) with
      | Some _ => still_running (S n) l'
      | None => (name, p) :: still_running (S n) l'
      end
  end.

End Pending.

(** The creation of the third node of three fails. *)
Definition third_spawn_fails : Env :=
  mkEnv "python3" (fun _ => false) (fun n => Nat.eqb n 4) (fun _ _ => None) (fun _ => false).

(** SIGINT arrives at the second call; the first signal raises. *)
Definition sigint_at_second_call : Env :=
  mkEnv "python3" (fun n => Nat.eqb n 1) (fun _ => false) (fun _ _ => None)
        (fun n => Nat.eqb n 0).

(** Of processes 2, 3 and 4, the middle one has exited with status 5. *)
Definition middle_client_exited : Env :=
  mkEnv "python3" (fun _ => false) (fun _ => false)
        (fun _ p => if Nat.eqb p 3 then Some 5%Z else None)
        (fun _ => false).

(** ** Interrupts outside a call, and what polls report *)

(** The handler's [raise KeyboardInterrupt] for a SIGINT that surfaces at
    this point of the code, outside any call. *)
Definition sigint_here : M unit :=
  fun s => (Raise KeyboardInterrupt, emit EvSigint s).

(** The run of [main] in which a SIGINT surfaces in the [try] after the last
    call of its body (while the monitor logs its outcome or returns), before
    the block is left. *)
Definition main_interrupted_late (env : Env) (fuel : nat) : M unit :=
  try_finally
    (try_except is_KeyboardInterrupt
       (bind (main_try env fuel) (fun _ => sigint_here))
       (log INFO (Text "Shutdown requested by user.")))
    (main_finally env).

(** A poll in a trace carries what the system reported for that process at
    some call. *)
Definition truthful (env : Env) (e : event) : Prop :=
  match e with
  | EvPoll p r => exists n, exit_status env n p = r
  | _ => True
  end.

(** Process 2 is reported exited from call 3 on and process 3 from call 9
    on; the others run. *)
Definition clients_exit_apart : Env :=
  mkEnv "python3" (fun _ => false) (fun _ => false)
        (fun n p => if Nat.eqb p 2 then (if Nat.leb 3 n then Some 0%Z else None)
                    else if Nat.eqb p 3 then (if Nat.leb 9 n then Some 1%Z else None)
                    else None)
        (fun _ => false).

(** What a computation creates: the processes it adds to the trace are the
    ones numbered from the counter it finds up to the counter it leaves. *)
Definition creates {A : Type} (m : M A) : Prop :=
  forall s r s', m s = (r, s') ->
  exists new,
    trace s' = trace s ++ new /\
    next_pid s <= next_pid s' /\
    children new = seq (next_pid s) (next_pid s' - next_pid s).

(** ** Basic facts *)

Lemma requests_app (a b : list event) : requests (a ++ b) = requests a ++ requests b.
Proof. apply flat_map_app. Qed.

Lemma records_app (a b : list event) : records (a ++ b) = records a ++ records b.
Proof. apply flat_map_app. Qed.

Lemma observed_app (a b : list event) : observed (a ++ b) = observed a ++ observed b.
Proof. apply flat_map_app. Qed.

Lemma length_pids (l : procs) : length (pids l) = length l.
Proof. apply length_map. Qed.

Lemma run_eq {A : Type} (r : result A) (n n' c c' : nat) (f f' : Frame) (t t' : list event) :
  n = n' -> c = c' -> f = f' -> t = t' ->
  (r, mkState n c f t) = (r, mkState n' c' f' t').
Proof. intros; subst; reflexivity. Qed.

Ltac same_state :=
  unfold emit, advance; simpl; apply run_eq; simpl;
  [ try lia | try lia | try reflexivity
  | repeat rewrite <- app_assoc; simpl; rewrite ?app_nil_r; try reflexivity ].

Lemma bind_ext {A B : Type} (m1 m2 : M A) (k1 k2 : A -> M B) (s : State) :
  m1 s = m2 s ->
  (forall a s', k1 a s' = k2 a s') ->
  bind m1 k1 s = bind m2 k2 s.
Proof.
  intros Hm Hk. unfold bind. rewrite Hm.
  destruct (m2 s) as [[a|e|] s']; auto.
Qed.

Lemma wait_loop_S (env : Env) (fuel : nat) (services : procs) (c : proc) (remaining : procs) :
  wait_loop env (S fuel) services (c :: remaining)
  = (sleep env 1000 ;;
     returned <- check_services env services ;;
     if returned : bool then ret true
     else
       finished <- track_finished env (c :: remaining) [] ;;
       wait_loop env fuel services (fold_left dict_pop finished (c :: remaining)))%run.
Proof. reflexivity. Qed.

Section Facts.

Variable env : Env.

Lemma quiet_S (n m : nat) :
  quiet env n (S m) = true -> interrupted env n = false /\ quiet env (S n) m = true.
Proof.
  simpl. intros H. apply andb_true_iff in H. destruct H as [H1 H2].
  split; [now apply negb_true_iff | assumption].
Qed.

Lemma quiet_split (a b n : nat) :
  quiet env n (a + b) = true -> quiet env n a = true /\ quiet env (n + a) b = true.
Proof.
  revert n. induction a as [|a IH]; intros n H.
  - simpl in *. rewrite Nat.add_0_r. auto.
  - change (S a + b) with (S (a + b)) in H.
    apply quiet_S in H. destruct H as [H1 H2].
    apply IH in H2. destruct H2 as [H2 H3].
    split.
    + simpl. rewrite H1, H2. reflexivity.
    + replace (n + S a) with (S n + a) by lia. assumption.
Qed.

Lemma quiet_weaken (n m m' : nat) :
  m' <= m -> quiet env n m = true -> quiet env n m' = true.
Proof.
  intros Hle H. replace m with (m' + (m - m')) in H by lia.
  apply quiet_split in H. tauto.
Qed.

Lemma sleep_run (ms : nat) (s : State) :
  interrupted env (tick s) = false ->
  sleep env ms s = (Ok tt, advance (EvSleep ms) s).
Proof. intros H. unfold sleep, syscall. rewrite H. reflexivity. Qed.

Lemma poll_run (p : Popen) (s : State) :
  interrupted env (tick s) = false ->
  poll env p s
  = (Ok (exit_status env (tick s) (pid p)),
     advance (EvPoll (pid p) (exit_status env (tick s) (pid p))) s).
Proof. intros H. unfold poll, syscall. rewrite H. reflexivity. Qed.

(** *** Stopping *)

Lemma terminate_all_run (l : procs) : forall s,
  quiet env (tick s) (length l) = true ->
  terminate_all env l s
  = (Ok tt, mkState (tick s + length l) (next_pid s) (frame s)
                    (trace s ++ terminate_trace env (tick s) l)).
Proof.
  induction l as [|[name p] l IH]; intros s Hq.
  - destruct s; unfold ret; same_state.
  - apply quiet_S in Hq. destruct Hq as [Hi Hq].
    simpl. unfold bind at 1. unfold try_except, terminate, syscall. rewrite Hi.
    destruct (signal_error env (tick s)); simpl.
    + unfold log. rewrite IH by exact Hq. destruct s; same_state.
    + rewrite IH by exact Hq. destruct s; same_state.
Qed.

Lemma kill_all_run (l : procs) : forall s,
  quiet env (tick s) (length l) = true ->
  kill_all env l s
  = (Ok tt, mkState (tick s + length l) (next_pid s) (frame s)
                    (trace s ++ kill_trace env (tick s) l)).
Proof.
  induction l as [|[name p] l IH]; intros s Hq.
  - destruct s; unfold ret; same_state.
  - apply quiet_S in Hq. destruct Hq as [Hi Hq].
    simpl. unfold bind at 1. unfold try_except, kill, syscall. rewrite Hi.
    destruct (signal_error env (tick s)); simpl.
    + unfold ret. rewrite IH by exact Hq. destruct s; same_state.
    + rewrite IH by exact Hq. destruct s; same_state.
Qed.

Lemma stop_processes_run (l : procs) (s : State) :
  quiet env (tick s) (2 * length l + 1) = true ->
  stop_processes env l s
  = (Ok tt, mkState (tick s + (2 * length l + 1)) (next_pid s) (frame s)
                    (trace s ++ stop_trace env (tick s) l)).
Proof.
  intros Hq.
  replace (2 * length l + 1) with (length l + (1 + length l)) in Hq by lia.
  apply quiet_split in Hq. destruct Hq as [Hq1 Hq2].
  apply (quiet_split 1) in Hq2. destruct Hq2 as [Hq2 Hq3].
  apply quiet_S in Hq2. destruct Hq2 as [Hq2 _].
  unfold stop_processes, bind.
  rewrite terminate_all_run by exact Hq1.
  rewrite sleep_run by exact Hq2.
  rewrite kill_all_run by (simpl; rewrite <- Nat.add_1_r; exact Hq3).
  unfold stop_trace. rewrite (Nat.add_1_r (tick s + length l)).
  destruct s; same_state.
Qed.

Lemma requests_terminate_trace (l : procs) : forall n,
  requests (terminate_trace env n l) = map RTerminate (pids l).
Proof.
  induction l as [|[name p] l IH]; intros n; simpl; [reflexivity|].
  rewrite requests_app, IH. destruct (signal_error env n); reflexivity.
Qed.

Lemma requests_kill_trace (l : procs) : forall n,
  requests (kill_trace env n l) = map RKill (pids l).
Proof.
  induction l as [|[name p] l IH]; intros n; simpl; [reflexivity|].
  f_equal. apply IH.
Qed.

Lemma requests_stop_trace (l : procs) (n : nat) :
  requests (stop_trace env n l) = stop_requests l.
Proof.
  unfold stop_trace, stop_requests.
  rewrite !requests_app, requests_terminate_trace, requests_kill_trace. reflexivity.
Qed.

Lemma records_terminate_trace (l : procs) : forall n,
  records (terminate_trace env n l)
  = map (fun name => (DEBUG, AlreadyStopped name)) (refused env n l).
Proof.
  induction l as [|[name p] l IH]; intros n; simpl; [reflexivity|].
  rewrite records_app, IH. destruct (signal_error env n); reflexivity.
Qed.

Lemma records_kill_trace (l : procs) : forall n,
  records (kill_trace env n l) = [].
Proof.
  induction l as [|[name p] l IH]; intros n; simpl; [reflexivity|]. apply IH.
Qed.

Lemma records_stop_trace (l : procs) (n : nat) :
  records (stop_trace env n l)
  = map (fun name => (DEBUG, AlreadyStopped name)) (refused env n l).
Proof.
  unfold stop_trace.
  rewrite !records_app, records_terminate_trace, records_kill_trace.
  simpl. apply app_nil_r.
Qed.

End Facts.

Section Starting.

Variable env : Env.

Lemma start_group_from_run (group : list (string * string)) : forall s started,
  quiet env (tick s) (2 * length group) = true ->
  spawns_succeed env (tick s) (length group) = true ->
  start_group_from env group started s
  = (Ok (started ++ started_procs env (next_pid s) group),
     mkState (tick s + 2 * length group) (next_pid s + length group) (frame s)
             (trace s ++ start_trace env (next_pid s) group)).
Proof.
  induction group as [|[node_name script] group IH]; intros s started Hq Hs.
  - simpl. unfold ret. rewrite app_nil_r. destruct s; same_state.
  - replace (2 * length ((node_name, script) :: group))
      with (S (S (2 * length group))) in Hq by (simpl; lia).
    apply quiet_S in Hq. destruct Hq as [Hi0 Hq].
    apply quiet_S in Hq. destruct Hq as [Hi1 Hq].
    simpl in Hs. apply andb_true_iff in Hs. destruct Hs as [Hs0 Hs].
    apply negb_true_iff in Hs0.
    simpl. unfold bind at 1. unfold start_node, bind, log, Popen_new, syscall.
    simpl. rewrite Hi0, Hs0. simpl.
    unfold sleep, syscall. simpl. rewrite Hi1.
    rewrite IH by (simpl; assumption).
    rewrite <- app_assoc. simpl.
    destruct s; same_state.
Qed.

Lemma length_started_procs (group : list (string * string)) : forall c,
  length (started_procs env c group) = length group.
Proof.
  induction group as [|[node_name script] group IH]; intros c; simpl; auto.
Qed.

Lemma names_started_procs (group : list (string * string)) : forall c,
  names (started_procs env c group) = map fst group.
Proof.
  induction group as [|[node_name script] group IH]; intros c; simpl; [reflexivity|].
  f_equal. apply IH.
Qed.

Lemma args_started_procs (group : list (string * string)) : forall c,
  map (fun np => args (snd np)) (started_procs env c group)
  = map (fun ns => [executable env; snd ns; fst ns]) group.
Proof.
  induction group as [|[node_name script] group IH]; intros c; simpl; [reflexivity|].
  f_equal. apply IH.
Qed.

Lemma pids_started_procs (group : list (string * string)) : forall c,
  pids (started_procs env c group) = seq c (length group).
Proof.
  induction group as [|[node_name script] group IH]; intros c; simpl; [reflexivity|].
  f_equal. apply IH.
Qed.

Lemma requests_start_trace (group : list (string * string)) : forall c,
  requests (start_trace env c group) = start_requests (executable env) group.
Proof.
  induction group as [|[node_name script] group IH]; intros c; simpl; [reflexivity|].
  f_equal. f_equal. apply IH.
Qed.

End Starting.

(** ** The monitor *)

Lemma spawns_app (a b : list event) : spawns (a ++ b) = spawns a ++ spawns b.
Proof. apply flat_map_app. Qed.

Lemma outcome_last (t : list event) (e : event) :
  outcome (t ++ [e]) = outcome [e].
Proof. unfold outcome. rewrite last_last. reflexivity. Qed.

Section Monitoring.

Variable env : Env.

Lemma check_services_clear (l : procs) : forall s,
  quiet env (tick s) (length l) = true ->
  all_running env (tick s) l = true ->
  check_services env l s
  = (Ok false, mkState (tick s + length l) (next_pid s) (frame s)
                       (trace s ++ polls_running l)).
Proof.
  induction l as [|[name p] l IH]; intros s Hq Hr.
  - unfold polls_running. destruct s; unfold ret; same_state.
  - apply quiet_S in Hq. destruct Hq as [Hi Hq].
    simpl in Hr. destruct (exit_status env (tick s) (pid p)) eqn:E; [discriminate|].
    simpl. unfold bind at 1. rewrite poll_run by exact Hi. rewrite E.
    rewrite IH by (simpl; assumption).
    unfold polls_running. destruct s; same_state.
Qed.

Lemma check_services_hit (pre post : procs) (name : string) (p : Popen) (code : Z) :
  forall s,
  quiet env (tick s) (length pre + 1) = true ->
  all_running env (tick s) pre = true ->
  exit_status env (tick s + length pre) (pid p) = Some code ->
  check_services env (pre ++ (name, p) :: post) s
  = (Ok true, mkState (tick s + length pre + 1) (next_pid s) (frame s)
                      (trace s ++ polls_running pre
                       ++ [EvPoll (pid p) (Some code);
                           EvLog ERROR (CriticalExit name code)])).
Proof.
  induction pre as [|[name' p'] pre IH]; intros s Hq Hr He.
  - apply quiet_S in Hq. destruct Hq as [Hi _].
    simpl in He. rewrite Nat.add_0_r in He.
    simpl. unfold bind at 1. rewrite poll_run by exact Hi. rewrite He.
    unfold bind, log, ret. destruct s; same_state.
  - change (length ((name', p') :: pre) + 1) with (S (length pre + 1)) in Hq.
    apply quiet_S in Hq. destruct Hq as [Hi Hq].
    simpl in Hr. destruct (exit_status env (tick s) (pid p')) eqn:E; [discriminate|].
    simpl. unfold bind at 1. rewrite poll_run by exact Hi. rewrite E.
    rewrite IH.
    + unfold polls_running. destruct s; same_state.
    + exact Hq.
    + exact Hr.
    + simpl. simpl in He. rewrite <- He. f_equal. lia.
Qed.

Lemma track_finished_run (items : procs) : forall finished s,
  quiet env (tick s) (length items) = true ->
  track_finished env items finished s
  = (Ok (finished ++ exited env (tick s) items),
     mkState (tick s + length items) (next_pid s) (frame s)
             (trace s ++ track_trace env (tick s) items)).
Proof.
  induction items as [|[name p] items IH]; intros finished s Hq.
  - simpl. unfold ret. rewrite app_nil_r. destruct s; same_state.
  - apply quiet_S in Hq. destruct Hq as [Hi Hq].
    simpl. unfold bind at 1. rewrite poll_run by exact Hi.
    destruct (exit_status env (tick s) (pid p)) as [code|].
    + unfold bind, log. rewrite IH by (simpl; assumption).
      rewrite <- app_assoc. destruct s; same_state.
    + rewrite IH by (simpl; assumption). destruct s; same_state.
Qed.

Lemma all_exited_names (l : procs) : forall n,
  all_exited env n l = true -> exited env n l = names l.
Proof.
  induction l as [|[name p] l IH]; intros n H; simpl in *; [reflexivity|].
  destruct (exit_status env n (pid p)); [|discriminate].
  f_equal. now apply IH.
Qed.

(** An iteration of the loop in which no service is found exited: the run
    goes on as the loop entered with the clients that are left. *)
Lemma wait_loop_iteration (fuel : nat) (services remaining : procs) (s : State) :
  remaining <> [] ->
  quiet env (tick s) (1 + length services + length remaining) = true ->
  all_running env (S (tick s)) services = true ->
  wait_loop env (S fuel) services remaining s
  = wait_loop env fuel services
      (fold_left dict_pop (exited env (tick s + 1 + length services) remaining) remaining)
      (mkState (tick s + 1 + length services + length remaining) (next_pid s) (frame s)
               (trace s ++ [EvSleep 1000] ++ polls_running services
                ++ track_trace env (tick s + 1 + length services) remaining)).
Proof.
  intros Hne Hq Hr.
  apply quiet_split in Hq. destruct Hq as [Hq Hq3].
  apply (quiet_split env 1) in Hq. destruct Hq as [Hq1 Hq2].
  apply quiet_S in Hq1. destruct Hq1 as [Hi _].
  destruct remaining as [|c remaining]; [contradiction|].
  rewrite wait_loop_S. unfold bind at 1. rewrite sleep_run by exact Hi.
  unfold bind at 1. rewrite check_services_clear;
    [| simpl; rewrite <- Nat.add_1_r; exact Hq2 | exact Hr].
  unfold bind at 1. rewrite track_finished_run
    by (simpl tick;
        match goal with
        | |- quiet _ ?n _ = _ =>
            replace n with (tick s + (1 + length services)) by lia
        end; exact Hq3).
  simpl tick.
  match goal with
  | |- context [exited env ?n _] =>
      replace n with (tick s + 1 + length services) by lia
  end.
  cbn [app]. f_equal. unfold advance. simpl.
  f_equal. repeat rewrite <- app_assoc. reflexivity.
Qed.

Lemma monitor_iteration (fuel : nat) (services remaining : procs) (s : State) :
  remaining <> [] ->
  quiet env (tick s) (1 + length services + length remaining) = true ->
  all_running env (S (tick s)) services = true ->
  monitor env (S fuel) services remaining s
  = monitor env fuel services
      (fold_left dict_pop (exited env (tick s + 1 + length services) remaining) remaining)
      (mkState (tick s + 1 + length services + length remaining) (next_pid s) (frame s)
               (trace s ++ [EvSleep 1000] ++ polls_running services
                ++ track_trace env (tick s + 1 + length services) remaining)).
Proof.
  intros Hne Hq Hr. unfold monitor, bind.
  now rewrite wait_loop_iteration.
Qed.

Lemma pop_all_names (d : procs) : fold_left dict_pop (names d) d = [].
Proof.
  induction d as [|[k v] d IH]; simpl; [reflexivity|].
  now rewrite String.eqb_refl.
Qed.

(** The iteration in which no service is found exited and every pending
    client is: the monitor returns, clients finished. *)
Lemma monitor_last_clients_exit (fuel : nat) (services remaining : procs) (s : State) :
  remaining <> [] ->
  quiet env (tick s) (1 + length services + length remaining) = true ->
  all_running env (S (tick s)) services = true ->
  all_exited env (tick s + 1 + length services) remaining = true ->
  monitor env (S fuel) services remaining s
  = (Ok tt,
     mkState (tick s + 1 + length services + length remaining) (next_pid s) (frame s)
             (trace s ++ [EvSleep 1000] ++ polls_running services
              ++ track_trace env (tick s + 1 + length services) remaining
              ++ [EvLog INFO AllClientsFinished])).
Proof.
  intros Hne Hq Hr He. rewrite monitor_iteration by assumption.
  rewrite all_exited_names by exact He. rewrite pop_all_names.
  unfold monitor, bind, log, emit. destruct fuel; simpl;
    apply run_eq; try reflexivity;
    repeat (rewrite <- app_assoc; simpl); reflexivity.
Qed.

(** The iteration of the loop in which a service is found exited. *)
Lemma monitor_service_exit (fuel : nat) (pre post remaining : procs)
      (name : string) (p : Popen) (code : Z) (s : State) :
  remaining <> [] ->
  quiet env (tick s) (length pre + 2) = true ->
  all_running env (S (tick s)) pre = true ->
  exit_status env (S (tick s) + length pre) (pid p) = Some code ->
  monitor env (S fuel) (pre ++ (name, p) :: post) remaining s
  = (Ok tt, mkState (tick s + length pre + 2) (next_pid s) (frame s)
                    (trace s ++ [EvSleep 1000] ++ polls_running pre
                     ++ [EvPoll (pid p) (Some code);
                         EvLog ERROR (CriticalExit name code)])).
Proof.
  intros Hne Hq Hr He.
  replace (length pre + 2) with (S (length pre + 1)) in Hq by lia.
  apply quiet_S in Hq. destruct Hq as [Hi Hq].
  destruct remaining as [|c remaining]; [contradiction|].
  unfold monitor. unfold bind at 1. simpl wait_loop.
  unfold bind at 1. rewrite sleep_run by exact Hi.
  unfold bind at 1.
  rewrite (check_services_hit pre post name p code) by assumption.
  unfold ret. destruct s; same_state.
Qed.

End Monitoring.

Section Determinism.

Variables e1 e2 : Env.
Hypothesis same : same_observations e1 e2.

Lemma sleep_same (ms : nat) (s : State) : sleep e1 ms s = sleep e2 ms s.
Proof.
  destruct same as [Hi _]. unfold sleep, syscall. rewrite Hi. reflexivity.
Qed.

Lemma poll_same (p : Popen) (s : State) : poll e1 p s = poll e2 p s.
Proof.
  destruct same as [Hi He]. unfold poll, syscall. rewrite Hi, He. reflexivity.
Qed.

Lemma check_services_same (l : procs) : forall s,
  check_services e1 l s = check_services e2 l s.
Proof.
  induction l as [|[name p] l IH]; intros s; simpl; [reflexivity|].
  apply bind_ext; [apply poll_same|].
  intros [code|] s'; [reflexivity | apply IH].
Qed.

Lemma track_finished_same (l : procs) : forall finished s,
  track_finished e1 l finished s = track_finished e2 l finished s.
Proof.
  induction l as [|[name p] l IH]; intros finished s; simpl; [reflexivity|].
  apply bind_ext; [apply poll_same|].
  intros [code|] s'; [|apply IH].
  apply bind_ext; [reflexivity|]. intros _ s''. apply IH.
Qed.

Lemma wait_loop_same (fuel : nat) : forall services remaining s,
  wait_loop e1 fuel services remaining s = wait_loop e2 fuel services remaining s.
Proof.
  induction fuel as [|fuel IH]; intros services remaining s;
    destruct remaining as [|c remaining]; try reflexivity.
  rewrite !wait_loop_S.
  apply bind_ext; [apply sleep_same|]. intros _ s1.
  apply bind_ext; [apply check_services_same|]. intros [|] s2; [reflexivity|].
  apply bind_ext; [apply track_finished_same|]. intros finished s3.
  apply IH.
Qed.

Lemma wait_for_clients_same (fuel : nat) (clients services : procs) (s : State) :
  wait_for_clients e1 fuel clients services s
  = wait_for_clients e2 fuel clients services s.
Proof.
  unfold wait_for_clients, monitor.
  apply bind_ext; [reflexivity|]. intros _ s1.
  apply bind_ext; [apply wait_loop_same|]. intros [|] s2; reflexivity.
Qed.

End Determinism.

(** ** The pending set *)

Lemma names_dict_pop_incl (d : procs) (x k : string) :
  In k (names (dict_pop d x)) -> In k (names d).
Proof.
  induction d as [|[k' v'] d IH]; simpl; [auto|].
  destruct (String.eqb_spec x k'); simpl; intuition.
Qed.

Lemma names_dict_pop_NoDup (d : procs) (x : string) :
  NoDup (names d) -> NoDup (names (dict_pop d x)).
Proof.
  induction d as [|[k' v'] d IH]; simpl; intros H; [constructor|].
  inversion H as [|? ? Hnot Hrest]; subst.
  destruct (String.eqb_spec x k'); simpl; [assumption|].
  constructor; [|auto].
  intros Hin. apply Hnot. eapply names_dict_pop_incl; eassumption.
Qed.

Lemma names_dict_pop_gone (d : procs) (x : string) :
  NoDup (names d) -> ~ In x (names (dict_pop d x)).
Proof.
  induction d as [|[k' v'] d IH]; simpl; intros H; [auto|].
  inversion H as [|? ? Hnot Hrest]; subst.
  destruct (String.eqb_spec x k'); simpl.
  - subst. assumption.
  - intros [Heq|Hin]; [congruence | now apply IH].
Qed.

Lemma names_dict_pop_keeps (d : procs) (x k : string) :
  In k (names d) -> k <> x -> In k (names (dict_pop d x)).
Proof.
  induction d as [|[k' v'] d IH]; simpl; [auto|].
  intros [Heq|Hin] Hne; destruct (String.eqb_spec x k'); simpl; subst; auto.
  congruence.
Qed.

Lemma names_pop_all_incl (finished : list string) : forall (d : procs) (k : string),
  In k (names (fold_left dict_pop finished d)) -> In k (names d).
Proof.
  induction finished as [|x finished IH]; simpl; intros d k H; [assumption|].
  apply IH in H. eapply names_dict_pop_incl; eassumption.
Qed.

Lemma names_pop_all_NoDup (finished : list string) : forall d : procs,
  NoDup (names d) -> NoDup (names (fold_left dict_pop finished d)).
Proof.
  induction finished as [|x finished IH]; simpl; intros d H; [assumption|].
  apply IH. now apply names_dict_pop_NoDup.
Qed.

Lemma names_pop_all_gone (finished : list string) : forall (d : procs) (x : string),
  NoDup (names d) -> In x finished ->
  ~ In x (names (fold_left dict_pop finished d)).
Proof.
  induction finished as [|a finished IH]; simpl; intros d x Hnd Hin; [contradiction|].
  destruct (string_dec a x) as [->|Hne].
  - intros H. apply names_pop_all_incl in H.
    revert H. now apply names_dict_pop_gone.
  - destruct Hin as [Heq|Hin]; [contradiction|].
    apply IH; [now apply names_dict_pop_NoDup | assumption].
Qed.

Lemma names_pop_all_keeps (finished : list string) : forall (d : procs) (k : string),
  In k (names d) -> ~ In k finished ->
  In k (names (fold_left dict_pop finished d)).
Proof.
  induction finished as [|a finished IH]; simpl; intros d k Hin Hnot; [assumption|].
  apply IH; [|tauto].
  apply names_dict_pop_keeps; [assumption|].
  intros ->. tauto.
Qed.

Lemma names_dict_set (d : procs) (x : string) (v : Popen) (k : string) :
  In k (names (dict_set d x v)) <-> k = x \/ In k (names d).
Proof.
  induction d as [|[k' v'] d IH]; simpl.
  - intuition.
  - destruct (String.eqb_spec x k'); simpl.
    + subst. intuition.
    + rewrite IH. intuition.
Qed.

Lemma names_dict_set_NoDup (d : procs) (x : string) (v : Popen) :
  NoDup (names d) -> NoDup (names (dict_set d x v)).
Proof.
  induction d as [|[k' v'] d IH]; simpl; intros H.
  - constructor; [auto | constructor].
  - inversion H as [|? ? Hnot Hrest]; subst.
    destruct (String.eqb_spec x k'); simpl.
    + constructor; assumption.
    + constructor; [|auto].
      rewrite names_dict_set. intros [Heq|Hin]; [congruence | contradiction].
Qed.

Lemma names_dict_from (pairs : procs) : forall (acc : procs) (k : string),
  In k (names (fold_left (fun d kv => dict_set d (fst kv) (snd kv)) pairs acc))
  <-> In k (names acc) \/ In k (names pairs).
Proof.
  induction pairs as [|[x v] pairs IH]; simpl; intros acc k.
  - intuition.
  - rewrite IH, names_dict_set. intuition.
Qed.

Lemma names_dict_from_NoDup (pairs : procs) : forall acc : procs,
  NoDup (names acc) ->
  NoDup (names (fold_left (fun d kv => dict_set d (fst kv) (snd kv)) pairs acc)).
Proof.
  induction pairs as [|[x v] pairs IH]; simpl; intros acc H; [assumption|].
  apply IH. now apply names_dict_set_NoDup.
Qed.

Lemma names_dict (pairs : procs) (k : string) :
  In k (names (dict pairs)) <-> In k (names pairs).
Proof. unfold dict. rewrite names_dict_from. simpl. intuition. Qed.

Lemma names_dict_NoDup (pairs : procs) : NoDup (names (dict pairs)).
Proof. unfold dict. apply names_dict_from_NoDup. constructor. Qed.

(** ** What every run of the monitor satisfies *)

Lemma passive_refl (s : State) : passive s s [].
Proof. unfold passive. rewrite app_nil_r. auto. Qed.

Lemma passive_trans (s s1 s2 : State) (n1 n2 : list event) :
  passive s s1 n1 -> passive s1 s2 n2 -> passive s s2 (n1 ++ n2).
Proof.
  unfold passive. intros (T1 & S1 & P1 & F1) (T2 & S2 & P2 & F2).
  rewrite T2, T1, spawns_app, S1, S2, app_assoc. repeat split; congruence.
Qed.

Lemma passive_advance (e : event) (s : State) :
  spawn_of e = [] -> passive s (advance e s) [e].
Proof. intros H. unfold passive, spawns. simpl. rewrite H. auto. Qed.

Lemma passive_emit (e : event) (s : State) :
  spawn_of e = [] -> passive s (emit e s) [e].
Proof. intros H. unfold passive, spawns. simpl. rewrite H. auto. Qed.

Lemma passive_cons (e : event) (s s' : State) (new : list event) :
  spawn_of e = [] -> passive (advance e s) s' new -> passive s s' (e :: new).
Proof.
  intros H Hp. apply (passive_trans s (advance e s) s' [e] new);
    [now apply passive_advance | exact Hp].
Qed.

Lemma passive_cons_log (e : event) (s s' : State) (new : list event) :
  spawn_of e = [] -> passive (emit e s) s' new -> passive s s' (e :: new).
Proof.
  intros H Hp. apply (passive_trans s (emit e s) s' [e] new);
    [now apply passive_emit | exact Hp].
Qed.

Section Invariants.

Variable env : Env.

Lemma check_services_inv (l : procs) : forall s r s',
  check_services env l s = (r, s') ->
  exists new,
    passive s s' new /\ observed new = [] /\
    (r = Ok true ->
     exists pre name code, new = pre ++ [EvLog ERROR (CriticalExit name code)]).
Proof.
  induction l as [|[name p] l IH]; intros s r s' H.
  - inversion H; subst. exists []. split; [apply passive_refl|].
    split; [reflexivity | discriminate].
  - simpl in H. unfold bind at 1 in H. unfold poll, syscall in H.
    destruct (interrupted env (tick s)).
    + inversion H; subst. exists [EvSigint].
      split; [now apply passive_advance|]. split; [reflexivity | discriminate].
    + destruct (exit_status env (tick s) (pid p)) as [code|].
      * inversion H; subst.
        exists [EvPoll (pid p) (Some code); EvLog ERROR (CriticalExit name code)].
        split.
        -- apply passive_cons; [reflexivity|].
           apply passive_cons_log; [reflexivity|]. apply passive_refl.
        -- split; [reflexivity|]. intros _.
           exists [EvPoll (pid p) (Some code)], name, code. reflexivity.
      * apply IH in H. destruct H as (new & Hp & Ho & Ht).
        exists (EvPoll (pid p) None :: new). split.
        -- apply passive_cons; [reflexivity | exact Hp].
        -- split; [exact Ho|]. intros Hr.
           destruct (Ht Hr) as (pre & n & c & ->).
           exists (EvPoll (pid p) None :: pre), n, c. reflexivity.
Qed.

Lemma track_finished_inv (items : procs) : forall finished s r s',
  track_finished env items finished s = (r, s') ->
  exists new,
    passive s s' new /\
    incl (observed new) (names items) /\
    (NoDup (names items) -> NoDup (observed new)) /\
    (forall fin, r = Ok fin -> fin = finished ++ observed new) /\
    ((forall fin, r <> Ok fin) -> NoDup (names items) ->
     exists name, In name (names items) /\ ~ In name (observed new)).
Proof.
  induction items as [|[name p] items IH]; intros finished s r s' H.
  - inversion H; subst. exists []. split; [apply passive_refl|].
    split; [apply incl_nil_l|]. split; [constructor|]. split.
    + intros fin Hf. inversion Hf. now rewrite app_nil_r.
    + intros Hno. now destruct (Hno finished).
  - simpl in H. unfold bind at 1 in H. unfold poll, syscall in H.
    destruct (interrupted env (tick s)).
    + inversion H; subst. exists [EvSigint].
      split; [now apply passive_advance|].
      split; [apply incl_nil_l|]. split; [constructor|]. split; [discriminate|].
      intros _ _. exists name. simpl. auto.
    + destruct (exit_status env (tick s) (pid p)) as [code|].
      * unfold bind, log in H. apply IH in H.
        destruct H as (new & Hp & Hi & Hn & Hok & Hbad).
        exists ([EvPoll (pid p) (Some code); EvLog INFO (ClientFinished name code)] ++ new).
        split.
        { apply passive_cons; [reflexivity|].
          apply passive_cons_log; [reflexivity | exact Hp]. }
        rewrite observed_app. simpl.
        split.
        { intros x [<-|Hx]; [now left | right; now apply Hi]. }
        split.
        { intros Hnd. inversion Hnd as [|? ? Hnot Hrest]; subst.
          constructor; [|auto]. intros Hin. apply Hnot. now apply Hi. }
        split.
        { intros fin Hf. rewrite (Hok fin Hf), <- app_assoc. reflexivity. }
        intros Hno Hnd. inversion Hnd as [|? ? Hnot Hrest]; subst.
        destruct (Hbad Hno Hrest) as (x & Hx & Hnx).
        exists x. split; [now right|].
        intros [<-|Hin]; [contradiction | contradiction].
      * apply IH in H.
        destruct H as (new & Hp & Hi & Hn & Hok & Hbad).
        exists (EvPoll (pid p) None :: new).
        split.
        { apply passive_cons; [reflexivity | exact Hp]. }
        change (observed (EvPoll (pid p) None :: new)) with (observed new).
        split; [now apply incl_tl|].
        split.
        { intros Hnd. inversion Hnd; subst. auto. }
        split; [exact Hok|].
        intros Hno Hnd. inversion Hnd as [|? ? Hnot Hrest]; subst.
        destruct (Hbad Hno Hrest) as (x & Hx & Hnx).
        exists x. split; [now right | exact Hnx].
Qed.

Lemma wait_loop_inv (fuel : nat) : forall services remaining s r s',
  NoDup (names remaining) ->
  wait_loop env fuel services remaining s = (r, s') ->
  exists new,
    passive s s' new /\
    NoDup (observed new) /\
    incl (observed new) (names remaining) /\
    (r = Ok false <-> incl (names remaining) (observed new)) /\
    (r = Ok true ->
     exists pre name code, new = pre ++ [EvLog ERROR (CriticalExit name code)]).
Proof.
  induction fuel as [|fuel IH]; intros services remaining s r s' Hnd H;
    destruct remaining as [|c remaining].
  1, 3: inversion H; subst; exists []; split; [apply passive_refl|];
        split; [constructor|]; split; [apply incl_nil_l|];
        split; [split; [intros _; apply incl_nil_l | reflexivity] | discriminate].
  - inversion H; subst. exists []. split; [apply passive_refl|].
    split; [constructor|]. split; [apply incl_nil_l|]. split; [|discriminate].
    split; [discriminate|]. intros Hi. destruct (Hi (fst c)). now left.
  - rewrite wait_loop_S in H. unfold bind at 1 in H.
    unfold sleep, syscall in H.
    destruct (interrupted env (tick s)).
    { inversion H; subst. exists [EvSigint].
      split; [now apply passive_advance|].
      split; [constructor|]. split; [apply incl_nil_l|]. split; [|discriminate].
      split; [discriminate|]. intros Hi. destruct (Hi (fst c)). now left. }
    unfold bind at 1 in H.
    destruct (check_services env services (advance (EvSleep 1000) s))
      as [r1 s1] eqn:Hc.
    apply check_services_inv in Hc. destruct Hc as (new1 & Hp1 & Ho1 & Ht1).
    assert (Hp01 : passive s s1 (EvSleep 1000 :: new1)).
    { apply passive_cons; [reflexivity | exact Hp1]. }
    assert (Hstop : forall r0, r = r0 -> s' = s1 -> r0 <> Ok false ->
              (r0 = Ok true -> r1 = Ok true) ->
              exists new,
                passive s s' new /\ NoDup (observed new) /\
                incl (observed new) (names (c :: remaining)) /\
                (r = Ok false <-> incl (names (c :: remaining)) (observed new)) /\
                (r = Ok true ->
                 exists pre name code,
                   new = pre ++ [EvLog ERROR (CriticalExit name code)])).
    { intros r0 -> -> Hr0 Htrue. exists (EvSleep 1000 :: new1).
      split; [exact Hp01|].
      change (observed (EvSleep 1000 :: new1)) with (observed new1). rewrite Ho1.
      split; [constructor|]. split; [apply incl_nil_l|]. split.
      - split; [contradiction|]. intros Hi. destruct (Hi (fst c)). now left.
      - intros Hr. destruct (Ht1 (Htrue Hr)) as (pre & n & k & ->).
        exists (EvSleep 1000 :: pre), n, k. reflexivity. }
    destruct r1 as [[|]|e|].
    + inversion H; subst. apply (Hstop (Ok true)); auto; discriminate.
    + unfold bind at 1 in H.
      destruct (track_finished env (c :: remaining) [] s1) as [r2 s2] eqn:Ht.
      apply track_finished_inv in Ht.
      destruct Ht as (new2 & Hp2 & Hi2 & Hn2 & Hok2 & Hbad2).
      assert (Hp02 : passive s s2 ((EvSleep 1000 :: new1) ++ new2))
        by (eapply passive_trans; eassumption).
      assert (Hobs : observed ((EvSleep 1000 :: new1) ++ new2) = observed new2).
      { rewrite observed_app.
        change (observed (EvSleep 1000 :: new1)) with (observed new1).
        now rewrite Ho1. }
      destruct r2 as [finished|e|].
      * pose proof (Hok2 finished eq_refl) as Hfin. simpl in Hfin. subst finished.
        apply IH in H; [|now apply names_pop_all_NoDup].
        destruct H as (new3 & Hp3 & Hn3 & Hi3 & Hiff & Ht3).
        exists (((EvSleep 1000 :: new1) ++ new2) ++ new3).
        split; [eapply passive_trans; eassumption|].
        rewrite observed_app, Hobs.
        split.
        { apply NoDup_app; [now apply Hn2 | exact Hn3 |].
          intros x Hx2 Hx3. apply Hi3 in Hx3.
          revert Hx3. now apply names_pop_all_gone. }
        split.
        { intros x Hx. apply in_app_or in Hx. destruct Hx as [Hx|Hx].
          - now apply Hi2.
          - apply Hi3 in Hx. eapply names_pop_all_incl; eassumption. }
        split.
        { rewrite Hiff. split; intros Hall x Hx.
          - destruct (in_dec string_dec x (observed new2)) as [Hin|Hout].
            + apply in_or_app. now left.
            + apply in_or_app. right. apply Hall.
              now apply names_pop_all_keeps.
          - pose proof (names_pop_all_incl _ _ _ Hx) as Hx'.
            apply Hall in Hx'. apply in_app_or in Hx'.
            destruct Hx' as [Hin|Hin]; [|exact Hin].
            exfalso. revert Hx. now apply names_pop_all_gone. }
        intros Hr. destruct (Ht3 Hr) as (pre & n & k & ->).
        exists (((EvSleep 1000 :: new1) ++ new2) ++ pre), n, k.
        repeat rewrite <- app_assoc. reflexivity.
      * inversion H; subst.
        exists ((EvSleep 1000 :: new1) ++ new2).
        split; [exact Hp02|]. rewrite Hobs.
        split; [now apply Hn2|]. split; [exact Hi2|]. split; [|discriminate].
        split; [discriminate|]. intros Hall.
        destruct Hbad2 as (x & Hx & Hnx); [discriminate | exact Hnd |].
        exfalso. apply Hnx. now apply Hall.
      * inversion H; subst.
        exists ((EvSleep 1000 :: new1) ++ new2).
        split; [exact Hp02|]. rewrite Hobs.
        split; [now apply Hn2|]. split; [exact Hi2|]. split; [|discriminate].
        split; [discriminate|]. intros Hall.
        destruct Hbad2 as (x & Hx & Hnx); [discriminate | exact Hnd |].
        exfalso. apply Hnx. now apply Hall.
    + inversion H; subst. apply (Hstop (Raise e)); auto; discriminate.
    + inversion H; subst. apply (Hstop Pending); auto; discriminate.
Qed.

End Invariants.

(** ** Interrupts in the guarded part of [main] *)

Create HintDb interrupts.

Lemma ir_ret {A : Type} (a : A) : interrupt_raises (ret a).
Proof.
  intros s r s' H. inversion H; subst. exists []. rewrite app_nil_r.
  split; [reflexivity|]. split; [contradiction | discriminate].
Qed.

Lemma ir_quiet_step {A : Type} (m : M A) :
  (forall s, exists a e, e <> EvSigint /\
     (m s = (Ok a, emit e s) \/ m s = (Ok a, advance e s))) ->
  interrupt_raises m.
Proof.
  intros Hm s r s' H. destruct (Hm s) as (a & e & Hne & [Hs|Hs]);
    rewrite Hs in H; inversion H; subst; exists [e];
    (split; [reflexivity|]); (split; [|discriminate]);
    intros [Heq|[]]; contradiction.
Qed.

Lemma ir_log (lvl : level) (m : message) : interrupt_raises (log lvl m).
Proof.
  apply ir_quiet_step. intros s. exists tt, (EvLog lvl m).
  split; [discriminate | now left].
Qed.

Lemma ir_bind {A B : Type} (m : M A) (k : A -> M B) :
  interrupt_raises m -> (forall a, interrupt_raises (k a)) ->
  interrupt_raises (bind m k).
Proof.
  intros Hm Hk s r s' H. unfold bind in H.
  destruct (m s) as [r1 s1] eqn:E. apply Hm in E.
  destruct E as (new1 & T1 & I1). destruct r1 as [a|e|].
  - apply Hk in H. destruct H as (new2 & T2 & I2).
    exists (new1 ++ new2). rewrite T2, T1, app_assoc. split; [reflexivity|].
    rewrite <- I2. split.
    + intros Hin. apply in_app_or in Hin. destruct Hin as [Hin|Hin]; [|exact Hin].
      apply I1 in Hin. discriminate.
    + intros Hin. apply in_or_app. now right.
  - inversion H; subst. exists new1. split; [assumption|].
    rewrite I1. split; intros Heq; inversion Heq; reflexivity.
  - inversion H; subst. exists new1. split; [assumption|].
    rewrite I1. split; discriminate.
Qed.

#[local] Hint Resolve ir_ret ir_log ir_bind : interrupts.

Section Interrupts.

Variable env : Env.

Lemma ir_syscall {A : Type} (call : nat -> State -> result A * State) :
  (forall n s, exists r e, e <> EvSigint /\ r <> Raise KeyboardInterrupt /\
     exists c, call n s = (r, mkState (S (tick s)) c (frame s) (trace s ++ [e]))) ->
  interrupt_raises (syscall env call).
Proof.
  intros Hc s r s' H. unfold syscall in H.
  destruct (interrupted env (tick s)).
  - inversion H; subst. exists [EvSigint]. split; [reflexivity|].
    split; [reflexivity | intros _; now left].
  - destruct (Hc (tick s) s) as (r0 & e & Hne & Hr & c & Hs).
    rewrite Hs in H. inversion H; subst. exists [e]. split; [reflexivity|].
    split; [intros [Heq|[]]; contradiction | intros Heq; contradiction].
Qed.

Lemma ir_sleep (ms : nat) : interrupt_raises (sleep env ms).
Proof.
  apply ir_syscall. intros n s. exists (Ok tt), (EvSleep ms).
  repeat split; try discriminate. exists (next_pid s). reflexivity.
Qed.

Lemma ir_poll (p : Popen) : interrupt_raises (poll env p).
Proof.
  apply ir_syscall. intros n s.
  exists (Ok (exit_status env n (pid p))), (EvPoll (pid p) (exit_status env n (pid p))).
  repeat split; try discriminate. exists (next_pid s). reflexivity.
Qed.

Lemma ir_Popen_new (cmd : list string) : interrupt_raises (Popen_new env cmd).
Proof.
  apply ir_syscall. intros n s. destruct (spawn_error env n).
  - exists (Raise OSError), (EvSpawn cmd None).
    repeat split; try discriminate. exists (next_pid s). reflexivity.
  - exists (Ok (mkPopen (next_pid s) cmd)), (EvSpawn cmd (Some (next_pid s))).
    repeat split; try discriminate. exists (S (next_pid s)). reflexivity.
Qed.

#[local] Hint Resolve ir_sleep ir_poll ir_Popen_new : interrupts.

Lemma ir_start_group_from (group : list (string * string)) : forall started,
  interrupt_raises (start_group_from env group started).
Proof.
  induction group as [|[node_name script] group IH]; intros started; simpl;
    unfold start_node; auto 10 with interrupts.
Qed.

Lemma ir_check_services (l : procs) : interrupt_raises (check_services env l).
Proof.
  induction l as [|[name p] l IH]; simpl; auto with interrupts.
  apply ir_bind; [auto with interrupts|].
  intros [code|]; auto with interrupts.
Qed.

Lemma ir_track_finished (l : procs) : forall finished,
  interrupt_raises (track_finished env l finished).
Proof.
  induction l as [|[name p] l IH]; intros finished; simpl; auto with interrupts.
  apply ir_bind; [auto with interrupts|].
  intros [code|]; auto with interrupts.
Qed.

#[local] Hint Resolve ir_start_group_from ir_check_services ir_track_finished : interrupts.

Lemma ir_wait_loop (fuel : nat) : forall services remaining,
  interrupt_raises (wait_loop env fuel services remaining).
Proof.
  induction fuel as [|fuel IH]; intros services remaining;
    destruct remaining as [|c remaining]; try apply ir_ret.
  - intros s r s' H. inversion H; subst. exists []. rewrite app_nil_r.
    split; [reflexivity|]. split; [contradiction | discriminate].
  - rewrite wait_loop_S.
    apply ir_bind; [auto with interrupts|]. intros _.
    apply ir_bind; [auto with interrupts|]. intros [|]; auto with interrupts.
Qed.

#[local] Hint Resolve ir_wait_loop : interrupts.

Lemma ir_wait_for_clients (fuel : nat) (clients services : procs) :
  interrupt_raises (wait_for_clients env fuel clients services).
Proof.
  unfold wait_for_clients, monitor.
  apply ir_bind; [auto with interrupts|]. intros _.
  apply ir_bind; [auto with interrupts|]. intros [|]; auto with interrupts.
Qed.

Lemma ir_set_service_procs (v : procs) : interrupt_raises (set_service_procs v).
Proof.
  intros s r s' H. inversion H; subst. exists []. simpl. rewrite app_nil_r.
  split; [reflexivity|]. split; [contradiction | discriminate].
Qed.

Lemma ir_set_client_procs (v : procs) : interrupt_raises (set_client_procs v).
Proof.
  intros s r s' H. inversion H; subst. exists []. simpl. rewrite app_nil_r.
  split; [reflexivity|]. split; [contradiction | discriminate].
Qed.

#[local] Hint Resolve ir_wait_for_clients ir_set_service_procs ir_set_client_procs
  : interrupts.

Lemma ir_main_try (fuel : nat) : interrupt_raises (main_try env fuel).
Proof.
  unfold main_try, start_group.
  repeat (apply ir_bind; [auto with interrupts | intros ?]).
  match goal with
  | |- interrupt_raises (if ?b then _ else _) => destruct b
  end; auto with interrupts.
Qed.

End Interrupts.

(** ** The run of [main] *)

Lemma bind_log {B : Type} (lvl : level) (m : message) (k : unit -> M B) (s : State) :
  bind (log lvl m) k s = k tt (emit (EvLog lvl m) s).
Proof. reflexivity. Qed.

Lemma bind_inv {A B : Type} (m : M A) (k : A -> M B) (s : State)
      (r : result B) (s' : State) :
  bind m k s = (r, s') ->
  (exists a s1, m s = (Ok a, s1) /\ k a s1 = (r, s')) \/
  (exists e, m s = (Raise e, s') /\ r = Raise e) \/
  (m s = (Pending, s') /\ r = Pending).
Proof.
  unfold bind. destruct (m s) as [[a|e|] s1]; intros H.
  - left. eauto.
  - inversion H; subst. right. left. eauto.
  - inversion H; subst. right. right. auto.
Qed.

Section Main.

Variable env : Env.

Lemma sleep_inv (ms : nat) (s : State) (r : result unit) (s' : State) :
  sleep env ms s = (r, s') ->
  frame s' = frame s /\ next_pid s' = next_pid s /\ r <> Pending.
Proof.
  unfold sleep, syscall. destruct (interrupted env (tick s)); intros H;
    inversion H; subst; (split; [reflexivity|]); (split; [reflexivity|]);
    discriminate.
Qed.

Lemma start_group_from_inv (group : list (string * string)) :
  forall started s r s',
  start_group_from env group started s = (r, s') ->
  frame s' = frame s /\ r <> Pending /\
  (forall ps, r = Ok ps ->
     ps = started ++ started_procs env (next_pid s) group /\
     next_pid s' = next_pid s + length group).
Proof.
  induction group as [|[node_name script] group IH]; intros started s r s' H.
  - inversion H; subst. split; [reflexivity|]. split; [discriminate|].
    intros ps Hp. inversion Hp. simpl. rewrite app_nil_r. split; [reflexivity | lia].
  - simpl in H. unfold bind at 1 in H.
    unfold start_node in H. rewrite bind_log in H.
    unfold Popen_new, syscall in H. simpl in H.
    destruct (interrupted env (tick s));
      [inversion H; subst; split; [reflexivity|]; split; discriminate|].
    destruct (spawn_error env (tick s));
      [inversion H; subst; split; [reflexivity|]; split; discriminate|].
    unfold bind at 1 in H. unfold sleep, syscall in H. simpl in H.
    destruct (interrupted env (S (tick s)));
      [inversion H; subst; split; [reflexivity|]; split; discriminate|].
    apply IH in H. simpl in H. destruct H as (Hf & Hr & Hok).
    split; [exact Hf|]. split; [exact Hr|].
    intros ps Hp. destruct (Hok ps Hp) as [-> Hn].
    rewrite <- app_assoc. simpl. split; [reflexivity | lia].
Qed.

Lemma wait_for_clients_inv (fuel : nat) (clients services : procs)
      (s : State) (r : result unit) (s' : State) :
  wait_for_clients env fuel clients services s = (r, s') ->
  frame s' = frame s /\ next_pid s' = next_pid s.
Proof.
  unfold wait_for_clients, monitor. rewrite bind_log. unfold bind.
  destruct (wait_loop env fuel services (dict clients) (emit (EvLog INFO Waiting) s))
    as [r1 s1] eqn:E.
  apply wait_loop_inv in E; [|apply names_dict_NoDup].
  destruct E as (new & (_ & _ & Hn & Hf) & _).
  destruct r1 as [[|]|e|]; intros H; inversion H; subst; auto.
Qed.

Opaque NODES CLIENT_NODES.

(** How the [try] body of [main] leaves the two variables: both unbound when
    the start of the services did not return, the services alone when the
    start of the clients did not return, both otherwise. *)
Lemma main_try_frame (fuel : nat) (s0 : State) (r1 : result unit) (s1 : State) :
  frame s0 = mkFrame None None ->
  main_try env fuel s0 = (r1, s1) ->
  (frame s1 = mkFrame None None /\ exists e, r1 = Raise e) \/
  (frame s1 = mkFrame (Some (started_procs env (next_pid s0) NODES)) None /\
   exists e, r1 = Raise e) \/
  frame s1 = mkFrame (Some (started_procs env (next_pid s0) NODES))
                     (Some (started_procs env (next_pid s0 + length NODES) CLIENT_NODES)).
Proof.
  intros Hf0 H. unfold main_try in H. rewrite !bind_log in H.
  apply bind_inv in H.
  destruct H as [(sv & s2 & E & H) | [(e & E & ->) | (E & ->)]];
    apply start_group_from_inv in E; simpl in E; destruct E as (Hf & Hr & Hok).
  2: { left. split; [congruence | eauto]. }
  2: { contradiction. }
  destruct (Hok sv eq_refl) as [-> Hn]. clear Hok Hr.
  unfold bind at 1 in H. unfold set_service_procs at 1 in H.
  rewrite bind_log in H. rewrite Hf, Hf0 in H. simpl in H.
  apply bind_inv in H.
  destruct H as [([] & s3 & E & H) | [(e & E & ->) | (E & ->)]];
    apply sleep_inv in E; simpl in E; destruct E as (Hf3 & Hn3 & Hr3).
  2: { right. left. split; [congruence | eauto]. }
  2: { contradiction. }
  rewrite !bind_log in H.
  apply bind_inv in H.
  destruct H as [(cl & s4 & E & H) | [(e & E & ->) | (E & ->)]];
    apply start_group_from_inv in E; simpl in E; destruct E as (Hf4 & Hr4 & Hok4).
  2: { right. left. split; [congruence | eauto]. }
  2: { contradiction. }
  destruct (Hok4 cl eq_refl) as [-> Hn4]. clear Hok4 Hr4.
  unfold bind at 1 in H. unfold set_client_procs at 1 in H.
  rewrite bind_log in H.
  apply wait_for_clients_inv in H. simpl in H. destruct H as [Hf5 _].
  right. right. rewrite Hf5, Hf4, Hf3, Hn3, Hn. reflexivity.
Qed.

Transparent NODES CLIENT_NODES.

Lemma main_finally_run (s : State) :
  quiet env (tick s)
        ((2 * length (bound (client_procs (frame s))) + 1)
         + (2 * length (bound (service_procs (frame s))) + 1)) = true ->
  main_finally env s
  = (Ok tt,
     mkState (tick s + ((2 * length (bound (client_procs (frame s))) + 1)
                        + (2 * length (bound (service_procs (frame s))) + 1)))
             (next_pid s) (frame s)
             (trace s
              ++ [EvLog INFO (Text (nl ++ rule));
                  EvLog INFO (Text "SHUTTING DOWN DISTRIBUTED SYSTEM");
                  EvLog INFO (Text rule)]
              ++ stop_trace env (tick s) (bound (client_procs (frame s)))
              ++ stop_trace env (tick s + (2 * length (bound (client_procs (frame s))) + 1))
                            (bound (service_procs (frame s)))
              ++ [EvLog INFO (Text "All nodes stopped.")])).
Proof.
  intros Hq. apply quiet_split in Hq. destruct Hq as [Hq1 Hq2].
  unfold main_finally. rewrite !bind_log.
  unfold bind at 1. simpl frame.
  rewrite stop_processes_run by exact Hq1.
  unfold bind at 1. simpl frame.
  rewrite stop_processes_run by exact Hq2.
  unfold log. destruct s; same_state.
Qed.

End Main.

(** ** Stopping and starting: the properties *)

Lemma refused_incl (env : Env) (l : procs) : forall n x,
  In x (refused env n l) -> In x (names l).
Proof.
  induction l as [|[name p] l IH]; simpl; intros n x H; [contradiction|].
  destruct (signal_error env n); [destruct H as [H|H]|]; eauto.
Qed.

(** C5, as the code has it.  For every list of handles, when no SIGINT
    arrives during the call, [stop_processes] returns normally: it asks every
    handle to terminate, in list order, sleeps the grace period, then kills
    every handle, in list order, whatever the individual calls raise.  An
    error of a [terminate] leaves one DEBUG record naming the handle; an error
    of a [kill] is dropped without a record. *)
Theorem stop_processes_completes (env : Env) (processes : procs) (s : State) :
  quiet env (tick s) (2 * length processes + 1) = true ->
  exists s' new,
    stop_processes env processes s = (Ok tt, s') /\
    trace s' = trace s ++ new /\
    requests new = stop_requests processes /\
    records new
    = map (fun name => (DEBUG, AlreadyStopped name)) (refused env (tick s) processes).
Proof.
  intros Hq. rewrite stop_processes_run by exact Hq.
  eexists. exists (stop_trace env (tick s) processes).
  split; [reflexivity|]. split; [reflexivity|].
  split; [apply requests_stop_trace | apply records_stop_trace].
Qed.

Lemma stop_processes_completes_witness :
  exists s' new,
    stop_processes all_gone [worker 0 "K1"; worker 1 "K2"] init = (Ok tt, s') /\
    trace s' = trace init ++ new /\
    requests new = stop_requests [worker 0 "K1"; worker 1 "K2"] /\
    records new
    = map (fun name => (DEBUG, AlreadyStopped name))
          (refused all_gone (tick init) [worker 0 "K1"; worker 1 "K2"]).
Proof.
  apply (stop_processes_completes all_gone [worker 0 "K1"; worker 1 "K2"] init).
  reflexivity.
Defined.

(** C5 as stated fails: here the forced kill of the only handle raises, the
    call returns normally, and the trace holds no log record at all. *)
Lemma kill_error_leaves_no_record :
  fst (stop_processes kill_refused [worker 0 "K1"] init) = Ok tt /\
  trace (snd (stop_processes kill_refused [worker 0 "K1"] init))
  = [EvTerminate 0 true; EvSleep 2000; EvKill 0 false] /\
  records (trace (snd (stop_processes kill_refused [worker 0 "K1"] init))) = [].
Proof. repeat split. Qed.

(** C7.  Stopping the same list twice in a row, with no SIGINT meanwhile,
    returns normally: both calls issue the full sequence of requests, no
    exception comes out whatever the calls on the already stopped handles
    raise, and the only records logged are the DEBUG notes that a handle had
    already stopped. *)
Theorem stop_processes_twice (env : Env) (processes : procs) (s : State) :
  quiet env (tick s) ((2 * length processes + 1) + (2 * length processes + 1)) = true ->
  exists s' new,
    (stop_processes env processes ;; stop_processes env processes) s = (Ok tt, s') /\
    trace s' = trace s ++ new /\
    requests new = stop_requests processes ++ stop_requests processes /\
    Forall (fun rec => exists name,
              rec = (DEBUG, AlreadyStopped name) /\ In name (names processes))
           (records new).
Proof.
  intros Hq. apply quiet_split in Hq. destruct Hq as [Hq1 Hq2].
  unfold bind. rewrite stop_processes_run by exact Hq1.
  rewrite stop_processes_run by exact Hq2. simpl.
  eexists.
  exists (stop_trace env (tick s) processes
          ++ stop_trace env (tick s + (length processes + (length processes + 0) + 1))
                        processes).
  split; [reflexivity|]. split; [now rewrite app_assoc|].
  split; [now rewrite requests_app, !requests_stop_trace|].
  rewrite records_app, !records_stop_trace.
  apply Forall_app; split; apply Forall_forall; intros rec Hin;
    apply in_map_iff in Hin; destruct Hin as (name & <- & Hin);
    exists name; (split; [reflexivity|]); eapply refused_incl; eassumption.
Qed.

Lemma stop_processes_twice_witness :
  exists s' new,
    (stop_processes all_gone [worker 0 "K1"; worker 1 "K2"] ;;
     stop_processes all_gone [worker 0 "K1"; worker 1 "K2"]) init = (Ok tt, s') /\
    trace s' = trace init ++ new /\
    requests new
    = stop_requests [worker 0 "K1"; worker 1 "K2"]
      ++ stop_requests [worker 0 "K1"; worker 1 "K2"] /\
    Forall (fun rec => exists name,
              rec = (DEBUG, AlreadyStopped name) /\
              In name (names [worker 0 "K1"; worker 1 "K2"]))
           (records new).
Proof.
  apply (stop_processes_twice all_gone [worker 0 "K1"; worker 1 "K2"] init).
  reflexivity.
Defined.

(** C6.  When no creation fails (and no SIGINT arrives meanwhile),
    [start_group] returns one handle per node of the group, in the order of
    the group and under the node's name, each created by running the node's
    script with the node's name as argument; the calls it makes are, node
    after node, the creation followed by the half-second pause. *)
Theorem start_group_handles_in_order (env : Env) (group : list (string * string))
        (s : State) :
  quiet env (tick s) (2 * length group) = true ->
  spawns_succeed env (tick s) (length group) = true ->
  exists ps s' new,
    start_group env group s = (Ok ps, s') /\
    length ps = length group /\
    names ps = map fst group /\
    map (fun np => args (snd np)) ps
    = map (fun ns => [executable env; snd ns; fst ns]) group /\
    pids ps = seq (next_pid s) (length group) /\
    trace s' = trace s ++ new /\
    requests new = start_requests (executable env) group.
Proof.
  intros Hq Hs. unfold start_group.
  rewrite start_group_from_run by assumption. simpl app.
  eexists. eexists. exists (start_trace env (next_pid s) group).
  split; [reflexivity|].
  split; [apply length_started_procs|].
  split; [apply names_started_procs|].
  split; [apply args_started_procs|].
  split; [apply pids_started_procs|].
  split; [reflexivity | apply requests_start_trace].
Qed.

Lemma start_group_handles_in_order_witness :
  exists ps s' new,
    start_group calm CLIENT_NODES init = (Ok ps, s') /\
    length ps = length CLIENT_NODES /\
    names ps = map fst CLIENT_NODES /\
    map (fun np => args (snd np)) ps
    = map (fun ns => [executable calm; snd ns; fst ns]) CLIENT_NODES /\
    pids ps = seq (next_pid init) (length CLIENT_NODES) /\
    trace s' = trace init ++ new /\
    requests new = start_requests (executable calm) CLIENT_NODES.
Proof.
  apply (start_group_handles_in_order calm CLIENT_NODES init); reflexivity.
Defined.

(** ** The monitor: the properties *)

Lemma outcome_service_failed (t : list event) (name : string) (code : Z) :
  outcome (t ++ [EvLog ERROR (CriticalExit name code)]) = Some (ServiceFailed name code).
Proof. now rewrite outcome_last. Qed.

Lemma outcome_service_exit (t pre : list event) (e : event) (name : string) (code : Z) :
  outcome (t ++ pre ++ [e; EvLog ERROR (CriticalExit name code)])
  = Some (ServiceFailed name code).
Proof.
  replace (t ++ pre ++ [e; EvLog ERROR (CriticalExit name code)])
    with ((t ++ pre ++ [e]) ++ [EvLog ERROR (CriticalExit name code)])
    by (repeat rewrite <- app_assoc; reflexivity).
  apply outcome_service_failed.
Qed.

Lemma outcome_clients_finished (t : list event) :
  outcome (t ++ [EvLog INFO AllClientsFinished]) = Some ClientsFinished.
Proof. now rewrite outcome_last. Qed.

Lemma quiet_same (e1 e2 : Env) :
  (forall n, interrupted e2 n = interrupted e1 n) ->
  forall m n, quiet e2 n m = quiet e1 n m.
Proof.
  intros H m. induction m as [|m IH]; intros n; simpl; [reflexivity|].
  now rewrite H, IH.
Qed.

Lemma all_running_same (e1 e2 : Env) (l : procs) :
  (forall n q, In q (pids l) -> exit_status e2 n q = exit_status e1 n q) ->
  forall n, all_running e2 n l = all_running e1 n l.
Proof.
  induction l as [|[name p] l IH]; intros H n; simpl; [reflexivity|].
  rewrite H by (simpl; auto).
  destruct (exit_status e1 n (pid p)); [reflexivity|].
  apply IH. intros k q Hq. apply H. simpl. auto.
Qed.

(** C1.  At any iteration of the loop (so with a client still pending), if
    the services, polled in list order, are found running up to one that is
    found exited with status [code], and no SIGINT arrives meanwhile, then
    the monitor returns normally at once, reporting that service and its
    status in its last record.  The trace shows that the services are polled
    before any client and that no client is polled in that iteration, whatever
    the clients' own exit statuses are. *)
Theorem service_exit_preempts_clients (env : Env) (fuel : nat)
        (pre post remaining : procs) (name : string) (p : Popen) (code : Z)
        (s : State) :
  remaining <> [] ->
  quiet env (tick s) (length pre + 2) = true ->
  all_running env (S (tick s)) pre = true ->
  exit_status env (S (tick s) + length pre) (pid p) = Some code ->
  exists s',
    monitor env (S fuel) (pre ++ (name, p) :: post) remaining s = (Ok tt, s') /\
    trace s' = trace s ++ [EvSleep 1000] ++ polls_running pre
               ++ [EvPoll (pid p) (Some code); EvLog ERROR (CriticalExit name code)] /\
    outcome (trace s') = Some (ServiceFailed name code).
Proof.
  intros Hne Hq Hr He.
  rewrite (monitor_service_exit env fuel pre post remaining name p code s)
    by assumption.
  eexists. split; [reflexivity|]. split; [reflexivity|].
  apply (outcome_service_exit (trace s) (EvSleep 1000 :: polls_running pre)).
Qed.

Lemma service_exit_preempts_clients_witness :
  exists s',
    monitor service_and_client_exited 1
            ([worker 0 "Q1"] ++ worker 1 "D" :: [worker 3 "P11"])
            [worker 2 "K1"] init = (Ok tt, s') /\
    trace s' = trace init ++ [EvSleep 1000] ++ polls_running [worker 0 "Q1"]
               ++ [EvPoll 1 (Some 1%Z); EvLog ERROR (CriticalExit "D" 1)] /\
    outcome (trace s') = Some (ServiceFailed "D" 1).
Proof.
  apply (service_exit_preempts_clients service_and_client_exited 0
           [worker 0 "Q1"] [worker 3 "P11"] [worker 2 "K1"]
           "D" (mkPopen 1 ["python3"; "node.py"; "D"]) 1%Z init).
  - discriminate.
  - reflexivity.
  - reflexivity.
  - reflexivity.
Defined.

(** C10.  The service reported is the first one, in the order of the list,
    that its poll finds exited.  The report is the same in every system that
    delivers the same interrupts and answers alike for the handles listed up
    to that one, so services listed after it do not matter, whether or when
    they exited.  And the whole run of the monitor is the same in any two
    systems with the same interrupts and the same answers to polls. *)
Theorem first_listed_exit_is_reported (env : Env) (fuel : nat)
        (pre post remaining : procs) (name : string) (p : Popen) (code : Z)
        (s : State) :
  remaining <> [] ->
  quiet env (tick s) (length pre + 2) = true ->
  all_running env (S (tick s)) pre = true ->
  exit_status env (S (tick s) + length pre) (pid p) = Some code ->
  outcome (trace (snd (monitor env (S fuel) (pre ++ (name, p) :: post) remaining s)))
  = Some (ServiceFailed name code) /\
  (forall env',
     (forall n, interrupted env' n = interrupted env n) ->
     (forall n q, In q (pids pre) \/ q = pid p ->
                  exit_status env' n q = exit_status env n q) ->
     outcome (trace (snd (monitor env' (S fuel) (pre ++ (name, p) :: post) remaining s)))
     = Some (ServiceFailed name code)) /\
  (forall env',
     same_observations env env' ->
     forall fuel' clients services s0,
       wait_for_clients env fuel' clients services s0
       = wait_for_clients env' fuel' clients services s0).
Proof.
  intros Hne Hq Hr He.
  assert (Hone : forall e,
            quiet e (tick s) (length pre + 2) = true ->
            all_running e (S (tick s)) pre = true ->
            exit_status e (S (tick s) + length pre) (pid p) = Some code ->
            outcome (trace (snd (monitor e (S fuel) (pre ++ (name, p) :: post)
                                         remaining s)))
            = Some (ServiceFailed name code)).
  { intros e Hq' Hr' He'.
    rewrite (monitor_service_exit e fuel pre post remaining name p code s)
      by assumption.
    apply (outcome_service_exit (trace s) (EvSleep 1000 :: polls_running pre)). }
  split; [now apply Hone|]. split.
  - intros env' Hi Hs. apply Hone.
    + now rewrite (quiet_same env env').
    + rewrite (all_running_same env env'); [exact Hr|].
      intros n q Hin. apply Hs. now left.
    + rewrite Hs by now right. exact He.
  - intros env' Hsame fuel' clients services s0.
    now apply wait_for_clients_same.
Qed.

Lemma first_listed_exit_is_reported_witness :
  outcome (trace (snd (monitor later_listed_exits_first 1
                               ([] ++ worker 0 "A" :: [worker 1 "B"])
                               [worker 2 "K1"] init)))
  = Some (ServiceFailed "A" 3) /\
  (forall env',
     (forall n, interrupted env' n = interrupted later_listed_exits_first n) ->
     (forall n q, In q (pids []) \/ q = 0 ->
                  exit_status env' n q = exit_status later_listed_exits_first n q) ->
     outcome (trace (snd (monitor env' 1 ([] ++ worker 0 "A" :: [worker 1 "B"])
                                  [worker 2 "K1"] init)))
     = Some (ServiceFailed "A" 3)) /\
  (forall env',
     same_observations later_listed_exits_first env' ->
     forall fuel' clients services s0,
       wait_for_clients later_listed_exits_first fuel' clients services s0
       = wait_for_clients env' fuel' clients services s0).
Proof.
  apply (first_listed_exit_is_reported later_listed_exits_first 0
           [] [worker 1 "B"] [worker 2 "K1"]
           "A" (mkPopen 0 ["python3"; "node.py"; "A"]) 3%Z init).
  - discriminate.
  - reflexivity.
  - reflexivity.
  - reflexivity.
Defined.

(** C9.  With no client at all the monitor returns at once, whatever the
    services' state and whatever number of iterations it is allowed: it logs
    that it waits and that all clients finished, and makes no call, so no
    sleep and no poll. *)
Theorem no_clients_finish_at_once (env : Env) (fuel : nat) (services : procs)
        (s : State) :
  exists s',
    wait_for_clients env fuel [] services s = (Ok tt, s') /\
    trace s' = trace s ++ [EvLog INFO Waiting; EvLog INFO AllClientsFinished] /\
    requests [EvLog INFO Waiting; EvLog INFO AllClientsFinished] = [] /\
    tick s' = tick s /\
    outcome (trace s') = Some ClientsFinished.
Proof.
  exists (emit (EvLog INFO AllClientsFinished) (emit (EvLog INFO Waiting) s)).
  split; [destruct fuel; reflexivity|].
  split; [simpl; now rewrite <- app_assoc|].
  split; [reflexivity|]. split; [reflexivity|].
  simpl trace. apply outcome_clients_finished.
Qed.

(** What the records of any run of the monitor say, from any state and
    however it ends or however far it got: the run has ended with the
    ClientsFinished outcome exactly when every client has been recorded as
    exited; no client is recorded twice; only clients that were passed in are
    recorded; and the monitor creates no process. *)
Lemma wait_for_clients_records (env : Env) (fuel : nat)
        (clients services : procs) (s : State) :
  exists new,
    trace (snd (wait_for_clients env fuel clients services s)) = trace s ++ new /\
    ((forall name, In name (names clients) -> In name (observed new)) <->
     (fst (wait_for_clients env fuel clients services s) = Ok tt /\
      outcome (trace (snd (wait_for_clients env fuel clients services s)))
      = Some ClientsFinished)) /\
    NoDup (observed new) /\
    incl (observed new) (names clients) /\
    spawns new = [] /\
    next_pid (snd (wait_for_clients env fuel clients services s)) = next_pid s.
Proof.
  unfold wait_for_clients, monitor. rewrite bind_log. unfold bind.
  destruct (wait_loop env fuel services (dict clients) (emit (EvLog INFO Waiting) s))
    as [r1 s1] eqn:E.
  apply wait_loop_inv in E; [|apply names_dict_NoDup].
  destruct E as (new1 & (Ht & Hs & Hn & Hf) & Hnd & Hin & Hiff & Hfail).
  simpl in Ht, Hn.
  assert (Hincl : incl (observed new1) (names clients)).
  { intros x Hx. apply names_dict. now apply Hin. }
  assert (Hall : (forall name, In name (names clients) -> In name (observed new1))
                 <-> r1 = Ok false).
  { rewrite Hiff. split; intros H x Hx; apply H; now apply names_dict. }
  destruct r1 as [[|]|e|].
  - exists (EvLog INFO Waiting :: new1). simpl fst; simpl snd.
    split; [rewrite Ht, <- app_assoc; reflexivity|].
    change (observed (EvLog INFO Waiting :: new1)) with (observed new1).
    split.
    + split.
      * intros H. apply Hall in H. discriminate.
      * intros [_ Ho]. destruct (Hfail eq_refl) as (pre & n & k & ->).
        rewrite Ht, app_assoc, outcome_service_failed in Ho.
        discriminate.
    + repeat split; assumption.
  - exists (EvLog INFO Waiting :: new1 ++ [EvLog INFO AllClientsFinished]).
    simpl fst; simpl snd. unfold log. simpl trace.
    split; [rewrite Ht; repeat rewrite <- app_assoc; reflexivity|].
    assert (Ho : observed (EvLog INFO Waiting :: new1 ++ [EvLog INFO AllClientsFinished])
                 = observed new1).
    { change (observed (EvLog INFO Waiting :: new1 ++ [EvLog INFO AllClientsFinished]))
        with (observed (new1 ++ [EvLog INFO AllClientsFinished])).
      rewrite observed_app. simpl. apply app_nil_r. }
    rewrite Ho. split.
    + split.
      * intros _. split; [reflexivity | apply outcome_clients_finished].
      * intros _. now apply Hall.
    + repeat split; try assumption.
      change (spawns (EvLog INFO Waiting :: new1 ++ [EvLog INFO AllClientsFinished]))
        with (spawns (new1 ++ [EvLog INFO AllClientsFinished])).
      rewrite spawns_app, Hs. reflexivity.
  - exists (EvLog INFO Waiting :: new1). simpl fst; simpl snd.
    split; [rewrite Ht, <- app_assoc; reflexivity|].
    change (observed (EvLog INFO Waiting :: new1)) with (observed new1).
    split.
    + split.
      * intros H. apply Hall in H. discriminate.
      * intros [Hr _]. discriminate.
    + repeat split; assumption.
  - exists (EvLog INFO Waiting :: new1). simpl fst; simpl snd.
    split; [rewrite Ht, <- app_assoc; reflexivity|].
    change (observed (EvLog INFO Waiting :: new1)) with (observed new1).
    split.
    + split.
      * intros H. apply Hall in H. discriminate.
      * intros [Hr _]. discriminate.
    + repeat split; assumption.
Qed.

(** ** The whole run: the properties *)

Section Shutdown.

Variable env : Env.
Variable fuel : nat.

(** What the [finally] clause adds when no SIGINT arrives during it. *)
Lemma shutdown_added (n : nat) (cl sv : procs) (before : list event) :
  let new := before
             ++ [EvLog INFO (Text (nl ++ rule));
                 EvLog INFO (Text "SHUTTING DOWN DISTRIBUTED SYSTEM");
                 EvLog INFO (Text rule)]
             ++ stop_trace env n cl
             ++ stop_trace env (n + (2 * length cl + 1)) sv
             ++ [EvLog INFO (Text "All nodes stopped.")] in
  requests before = [] ->
  requests new = stop_requests cl ++ stop_requests sv /\
  last new EvSigint = EvLog INFO (Text "All nodes stopped.").
Proof.
  intros new Hb. subst new. split.
  - rewrite !requests_app, Hb, !requests_stop_trace. simpl. now rewrite app_nil_r.
  - rewrite !app_assoc. apply last_last.
Qed.

Lemma main_run :
  guarded_result env fuel <> Pending ->
  quiet env (tick (at_shutdown env fuel)) (shutdown_calls env fuel) = true ->
  exists s2 new,
    main env fuel init
    = (match guarded_result env fuel with
       | Raise KeyboardInterrupt => Ok tt
       | r => r
       end, s2) /\
    trace s2 = trace (at_shutdown env fuel) ++ new /\
    requests new
    = stop_requests (client_list env fuel) ++ stop_requests (service_list env fuel) /\
    last new EvSigint = EvLog INFO (Text "All nodes stopped.") /\
    (guarded_result env fuel = Raise KeyboardInterrupt ->
     In (EvLog INFO (Text "Shutdown requested by user.")) new).
Proof.
  unfold shutdown_calls, client_list, service_list, guarded_result, at_shutdown,
    main, try_finally, try_except.
  destruct (main_try env fuel init) as [r1 s1]. simpl fst. simpl snd.
  intros Hr Hq.
  destruct r1 as [[]|[|]|]; [| | |contradiction]; cbn [is_KeyboardInterrupt].
  - rewrite main_finally_run by exact Hq.
    eexists. eexists. split; [reflexivity|]. split.
    + simpl trace. reflexivity.
    + destruct (shutdown_added (tick s1) (bound (client_procs (frame s1)))
                               (bound (service_procs (frame s1))) [] eq_refl)
        as [H1 H2].
      split; [exact H1|]. split; [exact H2 | discriminate].
  - unfold log at 1.
    rewrite main_finally_run by exact Hq.
    eexists.
    exists ([EvLog INFO (Text "Shutdown requested by user.")]
            ++ [EvLog INFO (Text (nl ++ rule));
                EvLog INFO (Text "SHUTTING DOWN DISTRIBUTED SYSTEM");
                EvLog INFO (Text rule)]
            ++ stop_trace env (tick s1) (bound (client_procs (frame s1)))
            ++ stop_trace env (tick s1 + (2 * length (bound (client_procs (frame s1))) + 1))
                          (bound (service_procs (frame s1)))
            ++ [EvLog INFO (Text "All nodes stopped.")]).
    split; [reflexivity|]. split.
    + simpl trace. rewrite <- app_assoc. reflexivity.
    + destruct (shutdown_added (tick s1) (bound (client_procs (frame s1)))
                               (bound (service_procs (frame s1)))
                               [EvLog INFO (Text "Shutdown requested by user.")]
                               eq_refl)
        as [H1 H2].
      split; [exact H1|]. split; [exact H2|]. intros _. now left.
  - rewrite main_finally_run by exact Hq.
    eexists. eexists. split; [reflexivity|]. split.
    + simpl trace. reflexivity.
    + destruct (shutdown_added (tick s1) (bound (client_procs (frame s1)))
                               (bound (service_procs (frame s1))) [] eq_refl)
        as [H1 H2].
      split; [exact H1|]. split; [exact H2 | discriminate].
Qed.

(** The lists the [finally] clause finds are the handles of the groups whose
    start returned. *)
Lemma shutdown_lists :
  (service_list env fuel = [] \/
   service_list env fuel = started_procs env 0 NODES) /\
  (client_list env fuel = [] \/
   client_list env fuel = started_procs env (length NODES) CLIENT_NODES) /\
  (guarded_result env fuel = Ok tt ->
   service_list env fuel = started_procs env 0 NODES /\
   client_list env fuel = started_procs env (length NODES) CLIENT_NODES).
Proof.
  unfold service_list, client_list, guarded_result, at_shutdown.
  destruct (main_try env fuel init) as [r1 s1] eqn:E. simpl fst. simpl snd.
  apply main_try_frame in E; [|reflexivity].
  change (next_pid init) with 0 in E. change (0 + length NODES) with (length NODES) in E.
  destruct E as [[-> (e & ->)] | [[-> (e & ->)] | ->]]; simpl bound;
    repeat split; auto; discriminate.
Qed.

End Shutdown.

Lemma interrupted_in_spec (t : list event) :
  interrupted_in t = true <-> In EvSigint t.
Proof.
  unfold interrupted_in. rewrite existsb_exists. split.
  - intros (e & Hin & He). destruct e; try discriminate. exact Hin.
  - intros Hin. exists EvSigint. auto.
Qed.

(** C3, as the code has it.  However the guarded part of [main] ended, by
    the monitor returning (clients finished or a service failed), by a
    failed creation in either start, or by a SIGINT anywhere in it, the
    [finally] clause stops the client list and then the service list, each as
    [main] has it bound at that point, provided no SIGINT arrives during the
    clause itself.  A list is the handles of its whole group when the start
    of the group returned, and empty otherwise; both are whole when the
    monitor returned. *)
Theorem shutdown_runs_on_every_path (env : Env) (fuel : nat) :
  guarded_result env fuel <> Pending ->
  quiet env (tick (at_shutdown env fuel)) (shutdown_calls env fuel) = true ->
  exists r s2 new,
    main env fuel init = (r, s2) /\
    trace s2 = trace (at_shutdown env fuel) ++ new /\
    requests new
    = stop_requests (client_list env fuel) ++ stop_requests (service_list env fuel) /\
    last new EvSigint = EvLog INFO (Text "All nodes stopped.") /\
    (service_list env fuel = [] \/
     service_list env fuel = started_procs env 0 NODES) /\
    (client_list env fuel = [] \/
     client_list env fuel = started_procs env (length NODES) CLIENT_NODES) /\
    (guarded_result env fuel = Ok tt ->
     service_list env fuel = started_procs env 0 NODES /\
     client_list env fuel = started_procs env (length NODES) CLIENT_NODES).
Proof.
  intros Hr Hq.
  destruct (main_run env fuel Hr Hq) as (s2 & new & Hm & Ht & Hreq & Hlast & _).
  eexists. exists s2, new.
  split; [exact Hm|]. split; [exact Ht|]. split; [exact Hreq|].
  split; [exact Hlast|]. apply shutdown_lists.
Qed.

Lemma shutdown_runs_on_every_path_witness :
  exists r s2 new,
    main service_and_client_exited 1 init = (r, s2) /\
    trace s2 = trace (at_shutdown service_and_client_exited 1) ++ new /\
    requests new
    = stop_requests (client_list service_and_client_exited 1)
      ++ stop_requests (service_list service_and_client_exited 1) /\
    last new EvSigint = EvLog INFO (Text "All nodes stopped.") /\
    (service_list service_and_client_exited 1 = [] \/
     service_list service_and_client_exited 1
     = started_procs service_and_client_exited 0 NODES) /\
    (client_list service_and_client_exited 1 = [] \/
     client_list service_and_client_exited 1
     = started_procs service_and_client_exited (length NODES) CLIENT_NODES) /\
    (guarded_result service_and_client_exited 1 = Ok tt ->
     service_list service_and_client_exited 1
     = started_procs service_and_client_exited 0 NODES /\
     client_list service_and_client_exited 1
     = started_procs service_and_client_exited (length NODES) CLIENT_NODES).
Proof.
  apply (shutdown_runs_on_every_path service_and_client_exited 1).
  - vm_compute. discriminate.
  - vm_compute. reflexivity.
Defined.

(** C3 as stated fails for a SIGINT that arrives during the shutdown: here
    both clients have finished, the signal arrives in the grace period of the
    stop of the clients, and the only signals ever sent are the two
    termination requests to the clients; no service is stopped. *)
Lemma sigint_in_client_stop_skips_services :
  guarded_result (clients_done_sigint 43) 1 = Ok tt /\
  fst (main (clients_done_sigint 43) 1 init) = Raise KeyboardInterrupt /\
  filter is_signal (requests (trace (snd (main (clients_done_sigint 43) 1 init))))
  = [RTerminate 11; RTerminate 12].
Proof. vm_compute. repeat split. Qed.


(** C4 against the code.  When the creation of the second node fails, the
    exception leaves [start_group] and [main]; the first node has been
    created; the [finally] clause runs, but on two empty lists: the run sends
    no signal at all, and ends by logging that all nodes are stopped. *)
Theorem spawn_failure_leaves_started_node_running (fuel : nat) :
  fst (start_group second_spawn_fails NODES init) = Raise OSError /\
  fst (main second_spawn_fails fuel init) = Raise OSError /\
  children (trace (snd (main second_spawn_fails fuel init))) = [0] /\
  requests (trace (snd (main second_spawn_fails fuel init)))
  = [RSpawn ["python3"; "q1_node.py"; "Q1"]; RSleep 500;
     RSpawn ["python3"; "d_node.py"; "D"]; RSleep 2000; RSleep 2000] /\
  filter is_signal (requests (trace (snd (main second_spawn_fails fuel init)))) = [] /\
  last (records (trace (snd (main second_spawn_fails fuel init)))) (DEBUG, Waiting)
  = (INFO, Text "All nodes stopped.").
Proof. vm_compute. repeat split. Qed.

(** The same when the creation of the second client fails: the services are
    stopped, the first client, process 11, is not. *)
Lemma client_spawn_failure_leaves_first_client_running (fuel : nat) :
  fst (main second_client_spawn_fails fuel init) = Raise OSError /\
  children (trace (snd (main second_client_spawn_fails fuel init))) = seq 0 12 /\
  filter is_signal (requests (trace (snd (main second_client_spawn_fails fuel init))))
  = map RTerminate (seq 0 11) ++ map RKill (seq 0 11).
Proof. vm_compute. repeat split. Qed.

(** ** Two runs, step by step *)

(** Two services and one client that exits with status 0 at the second poll
    while both services run: the monitor returns after two rounds with all
    clients finished, and stopping the client and then the services asks
    each to terminate and then kills it. *)
Example run_clients_finished :
  wait_for_clients client_exits_on_second_poll 2
                   [worker 2 "K1"] [worker 0 "S1"; worker 1 "S2"] init
  = (Ok tt,
     mkState 8 0 (mkFrame None None)
       [EvLog INFO Waiting;
        EvSleep 1000; EvPoll 0 None; EvPoll 1 None; EvPoll 2 None;
        EvSleep 1000; EvPoll 0 None; EvPoll 1 None; EvPoll 2 (Some 0%Z);
        EvLog INFO (ClientFinished "K1" 0);
        EvLog INFO AllClientsFinished]) /\
  requests (trace (snd ((stop_processes client_exits_on_second_poll [worker 2 "K1"] ;;
                         stop_processes client_exits_on_second_poll
                                        [worker 0 "S1"; worker 1 "S2"]) init)))
  = [RTerminate 2; RSleep 2000; RKill 2;
     RTerminate 0; RTerminate 1; RSleep 2000; RKill 0; RKill 1].
Proof. split; reflexivity. Qed.

(** One service that has exited with status 1 at the first poll and one
    client still running: the monitor returns after one round, reporting the
    service, and has not polled the client. *)
Example run_service_failed :
  wait_for_clients service_and_client_exited 5 [worker 0 "K1"] [worker 1 "S1"] init
  = (Ok tt,
     mkState 2 0 (mkFrame None None)
       [EvLog INFO Waiting;
        EvSleep 1000; EvPoll 1 (Some 1%Z);
        EvLog ERROR (CriticalExit "S1" 1)]).
Proof. reflexivity. Qed.

(** ** Stopping under interrupts *)

Lemma quiet_false (env : Env) : forall m n,
  quiet env n m = false ->
  exists j, j < m /\ quiet env n j = true /\ interrupted env (n + j) = true.
Proof.
  induction m as [|m IH]; intros n H; simpl in H; [discriminate|].
  destruct (interrupted env n) eqn:Hi.
  - exists 0. rewrite Nat.add_0_r. repeat split; [lia | assumption].
  - simpl in H. apply IH in H. destruct H as (j & Hj & Hq & Hk).
    exists (S j). split; [lia|]. split.
    + simpl. now rewrite Hi, Hq.
    + now replace (n + S j) with (S n + j) by lia.
Qed.

Lemma interrupted_in_app (a b : list event) :
  interrupted_in (a ++ b) = interrupted_in a || interrupted_in b.
Proof. apply existsb_app. Qed.

Section StoppingInterrupted.

Variable env : Env.

Lemma terminate_all_interrupted (l : procs) : forall s j,
  j < length l ->
  quiet env (tick s) j = true ->
  interrupted env (tick s + j) = true ->
  exists s' new,
    terminate_all env l s = (Raise KeyboardInterrupt, s') /\
    trace s' = trace s ++ new /\
    requests new = map RTerminate (firstn j (pids l)) /\
    interrupted_in new = true /\
    next_pid s' = next_pid s /\ frame s' = frame s.
Proof.
  induction l as [|[name p] l IH]; intros s j Hj Hq Hi; [simpl in Hj; lia|].
  destruct j as [|j].
  - rewrite Nat.add_0_r in Hi. simpl. unfold bind at 1.
    unfold try_except, terminate, syscall. rewrite Hi. simpl.
    eexists. exists [EvSigint]. repeat split.
  - apply quiet_S in Hq. destruct Hq as [Hi0 Hq].
    simpl terminate_all. unfold bind at 1.
    unfold try_except, terminate, syscall. rewrite Hi0.
    simpl in Hj.
    destruct (signal_error env (tick s)); simpl.
    + unfold log.
      destruct (IH (emit (EvLog DEBUG (AlreadyStopped name))
                         (advance (EvTerminate (pid p) false) s)) j)
        as (s' & new & He & Ht & Hr & Hin & Hn & Hf);
        [lia | exact Hq | simpl; rewrite <- Hi; f_equal; lia |].
      exists s', ([EvTerminate (pid p) false; EvLog DEBUG (AlreadyStopped name)] ++ new).
      split; [exact He|]. split; [rewrite Ht; simpl; now rewrite <- !app_assoc|].
      split; [rewrite requests_app, Hr; reflexivity|].
      split; [rewrite interrupted_in_app, Hin; reflexivity|].
      split; [exact Hn | exact Hf].
    + destruct (IH (advance (EvTerminate (pid p) true) s) j)
        as (s' & new & He & Ht & Hr & Hin & Hn & Hf);
        [lia | exact Hq | simpl; rewrite <- Hi; f_equal; lia |].
      exists s', ([EvTerminate (pid p) true] ++ new).
      split; [exact He|]. split; [rewrite Ht; simpl; now rewrite <- !app_assoc|].
      split; [rewrite requests_app, Hr; reflexivity|].
      split; [rewrite interrupted_in_app, Hin; reflexivity|].
      split; [exact Hn | exact Hf].
Qed.

Lemma kill_all_interrupted (l : procs) : forall s j,
  j < length l ->
  quiet env (tick s) j = true ->
  interrupted env (tick s + j) = true ->
  exists s' new,
    kill_all env l s = (Raise KeyboardInterrupt, s') /\
    trace s' = trace s ++ new /\
    requests new = map RKill (firstn j (pids l)) /\
    interrupted_in new = true /\
    next_pid s' = next_pid s /\ frame s' = frame s.
Proof.
  induction l as [|[name p] l IH]; intros s j Hj Hq Hi; [simpl in Hj; lia|].
  destruct j as [|j].
  - rewrite Nat.add_0_r in Hi. simpl. unfold bind at 1.
    unfold try_except, kill, syscall. rewrite Hi. simpl.
    eexists. exists [EvSigint]. repeat split.
  - apply quiet_S in Hq. destruct Hq as [Hi0 Hq].
    simpl kill_all. unfold bind at 1.
    unfold try_except, kill, syscall. rewrite Hi0.
    simpl in Hj.
    destruct (signal_error env (tick s)); simpl.
    + unfold ret.
      destruct (IH (advance (EvKill (pid p) false) s) j)
        as (s' & new & He & Ht & Hr & Hin & Hn & Hf);
        [lia | exact Hq | simpl; rewrite <- Hi; f_equal; lia |].
      exists s', ([EvKill (pid p) false] ++ new).
      split; [exact He|]. split; [rewrite Ht; simpl; now rewrite <- !app_assoc|].
      split; [rewrite requests_app, Hr; reflexivity|].
      split; [rewrite interrupted_in_app, Hin; reflexivity|].
      split; [exact Hn | exact Hf].
    + destruct (IH (advance (EvKill (pid p) true) s) j)
        as (s' & new & He & Ht & Hr & Hin & Hn & Hf);
        [lia | exact Hq | simpl; rewrite <- Hi; f_equal; lia |].
      exists s', ([EvKill (pid p) true] ++ new).
      split; [exact He|]. split; [rewrite Ht; simpl; now rewrite <- !app_assoc|].
      split; [rewrite requests_app, Hr; reflexivity|].
      split; [rewrite interrupted_in_app, Hin; reflexivity|].
      split; [exact Hn | exact Hf].
Qed.

Lemma interrupted_in_terminate_trace (l : procs) : forall n,
  interrupted_in (terminate_trace env n l) = false.
Proof.
  induction l as [|[name p] l IH]; intros n; simpl; [reflexivity|].
  rewrite interrupted_in_app, IH. destruct (signal_error env n); reflexivity.
Qed.

Lemma interrupted_in_kill_trace (l : procs) : forall n,
  interrupted_in (kill_trace env n l) = false.
Proof.
  induction l as [|[name p] l IH]; intros n; simpl; [reflexivity|]. apply IH.
Qed.

Lemma interrupted_in_stop_trace (l : procs) (n : nat) :
  interrupted_in (stop_trace env n l) = false.
Proof.
  unfold stop_trace.
  now rewrite !interrupted_in_app, interrupted_in_terminate_trace,
    interrupted_in_kill_trace.
Qed.

Lemma firstn_stop_requests_early (l : procs) (j : nat) :
  j <= length l ->
  firstn j (stop_requests l) = map RTerminate (firstn j (pids l)).
Proof.
  intros Hj. unfold stop_requests.
  rewrite firstn_app, length_map, length_pids.
  replace (j - length l) with 0 by lia. simpl. rewrite app_nil_r.
  now rewrite firstn_map.
Qed.

Lemma firstn_stop_requests_late (l : procs) (k : nat) :
  firstn (length l + S k) (stop_requests l)
  = map RTerminate (pids l) ++ RSleep 2000 :: map RKill (firstn k (pids l)).
Proof.
  unfold stop_requests.
  replace (length l) with (length (map RTerminate (pids l)))
    by (now rewrite length_map, length_pids).
  rewrite firstn_app_2. simpl. now rewrite firstn_map.
Qed.

(** The stop of [l] in which the SIGINT arrives at its call number [j]. *)
Lemma stop_processes_interrupted (l : procs) (s : State) (j : nat) :
  j < 2 * length l + 1 ->
  quiet env (tick s) j = true ->
  interrupted env (tick s + j) = true ->
  exists s' new,
    stop_processes env l s = (Raise KeyboardInterrupt, s') /\
    trace s' = trace s ++ new /\
    requests new = firstn j (stop_requests l) /\
    interrupted_in new = true /\
    next_pid s' = next_pid s /\ frame s' = frame s.
Proof.
  intros Hj Hq Hi. unfold stop_processes.
  destruct (Nat.lt_ge_cases j (length l)) as [Hlt|Hge].
  - destruct (terminate_all_interrupted l s j Hlt Hq Hi)
      as (s' & new & He & Ht & Hr & Hin & Hn & Hf).
    exists s', new. unfold bind at 1. rewrite He.
    split; [reflexivity|]. split; [exact Ht|]. split; [|auto].
    rewrite Hr. symmetry. apply firstn_stop_requests_early. lia.
  - replace j with (length l + (j - length l)) in Hq, Hi by lia.
    apply quiet_split in Hq. destruct Hq as [Hq1 Hq2].
    unfold bind at 1. rewrite terminate_all_run by exact Hq1.
    destruct (Nat.eq_dec j (length l)) as [Heq|Hne].
    + replace (j - length l) with 0 in Hi by lia. rewrite Nat.add_0_r in Hi.
      unfold bind at 1. unfold sleep, syscall. simpl tick. rewrite Hi.
      eexists. exists (terminate_trace env (tick s) l ++ [EvSigint]).
      split; [reflexivity|]. split; [simpl; now rewrite app_assoc|].
      split.
      * rewrite requests_app, requests_terminate_trace. simpl. rewrite app_nil_r.
        rewrite firstn_stop_requests_early by lia. subst j.
        rewrite firstn_all2; [reflexivity | rewrite length_pids; lia].
      * split; [|auto]. rewrite interrupted_in_app. apply orb_true_r.
    + replace (j - length l) with (1 + (j - length l - 1)) in Hq2, Hi by lia.
      apply (quiet_split env 1) in Hq2. destruct Hq2 as [Hq2 Hq3].
      apply quiet_S in Hq2. destruct Hq2 as [Hi2 _].
      unfold bind at 1. rewrite sleep_run by exact Hi2.
      destruct (kill_all_interrupted l
                  (advance (EvSleep 2000)
                     (mkState (tick s + length l) (next_pid s) (frame s)
                              (trace s ++ terminate_trace env (tick s) l)))
                  (j - length l - 1))
        as (s' & new & He & Ht & Hr & Hin & Hn & Hf).
      * lia.
      * simpl tick. rewrite <- Nat.add_1_r. exact Hq3.
      * simpl tick. rewrite <- Hi. f_equal. lia.
      * exists s', (terminate_trace env (tick s) l ++ [EvSleep 2000] ++ new).
        split; [exact He|].
        split; [rewrite Ht; simpl; now rewrite <- !app_assoc|].
        split.
        -- rewrite !requests_app, requests_terminate_trace, Hr.
           replace j with (length l + S (j - length l - 1)) at 2 by lia.
           now rewrite firstn_stop_requests_late.
        -- split; [|auto]. rewrite !interrupted_in_app, Hin.
           now rewrite !orb_true_r.
Qed.

End StoppingInterrupted.

Lemma stop_processes_any (env : Env) (l : procs) (s : State) :
  exists s' new,
    snd (stop_processes env l s) = s' /\
    trace s' = trace s ++ new /\
    next_pid s' = next_pid s /\ frame s' = frame s /\
    ((fst (stop_processes env l s) = Ok tt /\
      interrupted_in new = false /\ requests new = stop_requests l) \/
     (fst (stop_processes env l s) = Raise KeyboardInterrupt /\
      interrupted_in new = true /\
      exists j, j < 2 * length l + 1 /\ requests new = firstn j (stop_requests l))).
Proof.
  destruct (quiet env (tick s) (2 * length l + 1)) eqn:Hq.
  - rewrite stop_processes_run by exact Hq.
    eexists. exists (stop_trace env (tick s) l).
    split; [reflexivity|]. split; [reflexivity|].
    split; [reflexivity|]. split; [reflexivity|]. left.
    split; [reflexivity|].
    split; [apply interrupted_in_stop_trace | apply requests_stop_trace].
  - apply quiet_false in Hq. destruct Hq as (j & Hj & Hq & Hi).
    destruct (stop_processes_interrupted env l s j Hj Hq Hi)
      as (s' & new & He & Ht & Hr & Hin & Hn & Hf).
    exists s', new. rewrite He.
    split; [reflexivity|]. split; [exact Ht|].
    split; [exact Hn|]. split; [exact Hf|]. right.
    split; [reflexivity|]. split; [exact Hin|]. exists j. auto.
Qed.

(** X3.  In every system, interrupted or not, and whatever [terminate] and
    [kill] raise: [stop_processes] ends by returning or by raising
    [KeyboardInterrupt], the latter exactly when a SIGINT arrived during it;
    no error of a signal leaves it.  The calls it has made are an initial
    segment of: terminate each handle in order, sleep, kill each handle in
    order, and the whole of it when it returned.  So it signals only handles
    of its list and kills none before all were asked to terminate and the
    grace period was slept. *)
Theorem stop_processes_only_interrupt_escapes (env : Env) (l : procs) (s : State) :
  exists new,
    trace (snd (stop_processes env l s)) = trace s ++ new /\
    (fst (stop_processes env l s) = Ok tt \/
     fst (stop_processes env l s) = Raise KeyboardInterrupt) /\
    (fst (stop_processes env l s) = Raise KeyboardInterrupt <->
     interrupted_in new = true) /\
    (exists rest, stop_requests l = requests new ++ rest) /\
    (fst (stop_processes env l s) = Ok tt -> requests new = stop_requests l).
Proof.
  destruct (stop_processes_any env l s) as (s' & new & <- & Ht & _ & _ & Hc).
  exists new. split; [exact Ht|].
  destruct Hc as [(Hr & Hi & Hq) | (Hr & Hi & j & Hj & Hq)]; rewrite Hr, Hi, Hq.
  - split; [now left|]. split; [split; discriminate|].
    split; [exists []; now rewrite app_nil_r | reflexivity].
  - split; [now right|]. split; [split; reflexivity|].
    split; [|discriminate].
    exists (skipn j (stop_requests l)). symmetry. apply firstn_skipn.
Qed.

(** X4.  If the SIGINT arrives while the handles are asked to terminate or
    during the grace period, at call number [j] of the stop,
    [stop_processes] raises [KeyboardInterrupt] after termination requests to
    the first [j] handles only: the handles after them are not asked to
    terminate, and no handle is killed. *)
Theorem stop_processes_interrupted_before_kill (env : Env) (l : procs)
        (s : State) (j : nat) :
  j <= length l ->
  quiet env (tick s) j = true ->
  interrupted env (tick s + j) = true ->
  exists s' new,
    stop_processes env l s = (Raise KeyboardInterrupt, s') /\
    trace s' = trace s ++ new /\
    requests new = map RTerminate (firstn j (pids l)).
Proof.
  intros Hj Hq Hi.
  destruct (stop_processes_interrupted env l s j) as (s' & new & He & Ht & Hr & _);
    [lia | exact Hq | exact Hi |].
  exists s', new. split; [exact He|]. split; [exact Ht|].
  rewrite Hr. now apply firstn_stop_requests_early.
Qed.

Lemma stop_processes_interrupted_before_kill_witness :
  exists s' new,
    stop_processes sigint_at_second_call [worker 0 "K1"; worker 1 "K2"] init
    = (Raise KeyboardInterrupt, s') /\
    trace s' = trace init ++ new /\
    requests new = map RTerminate (firstn 1 (pids [worker 0 "K1"; worker 1 "K2"])).
Proof.
  apply (stop_processes_interrupted_before_kill sigint_at_second_call
           [worker 0 "K1"; worker 1 "K2"] init 1).
  - simpl. lia.
  - reflexivity.
  - reflexivity.
Defined.

(** ** What a computation emits *)

Lemma emits_ret (P : event -> Prop) (E : exn -> Prop) {A : Type} (a : A) :
  emits P E (ret a).
Proof.
  intros s r s' H. inversion H; subst. split; [|discriminate].
  exists []. now rewrite app_nil_r.
Qed.

Lemma emits_log (P : event -> Prop) (E : exn -> Prop) (lvl : level) (m : message) :
  P (EvLog lvl m) -> emits P E (log lvl m).
Proof.
  intros HP s r s' H. inversion H; subst. split; [|discriminate].
  exists [EvLog lvl m]. split; [reflexivity | now constructor].
Qed.

Lemma emits_bind (P : event -> Prop) (E : exn -> Prop) {A B : Type}
      (m : M A) (k : A -> M B) :
  emits P E m -> (forall a, emits P E (k a)) -> emits P E (bind m k).
Proof.
  intros Hm Hk s r s' H. unfold bind in H.
  destruct (m s) as [r1 s1] eqn:E1. apply Hm in E1.
  destruct E1 as [(new1 & T1 & F1) R1]. destruct r1 as [a|e|].
  - apply Hk in H. destruct H as [(new2 & T2 & F2) R2].
    split; [|exact R2]. exists (new1 ++ new2).
    split; [now rewrite T2, T1, app_assoc | now apply Forall_app].
  - inversion H; subst. split; [eauto|].
    intros e0 He. inversion He; subst. now apply R1.
  - inversion H; subst. split; [eauto | discriminate].
Qed.

Section Emitting.

Variable env : Env.
Variable P : event -> Prop.
Variable E : exn -> Prop.
Hypothesis sigint_allowed : P EvSigint.
Hypothesis interrupt_allowed : E KeyboardInterrupt.

Lemma emits_sleep (ms : nat) : P (EvSleep ms) -> emits P E (sleep env ms).
Proof.
  intros HP s r s' H. unfold sleep, syscall in H.
  destruct (interrupted env (tick s)); inversion H; subst.
  - split; [exists [EvSigint]; split; [reflexivity | now constructor]|].
    intros e He. now inversion He.
  - split; [exists [EvSleep ms]; split; [reflexivity | now constructor]|].
    discriminate.
Qed.

Lemma emits_poll (p : Popen) :
  (forall r, P (EvPoll (pid p) r)) -> emits P E (poll env p).
Proof.
  intros HP s r s' H. unfold poll, syscall in H.
  destruct (interrupted env (tick s)); inversion H; subst.
  - split; [exists [EvSigint]; split; [reflexivity | now constructor]|].
    intros e He. now inversion He.
  - split; [eexists [_]; split; [reflexivity | constructor; [apply HP | constructor]]|].
    discriminate.
Qed.

Lemma emits_check_services (l : procs) :
  (forall np r, In np l -> P (EvPoll (pid (snd np)) r)) ->
  (forall name code, P (EvLog ERROR (CriticalExit name code))) ->
  emits P E (check_services env l).
Proof.
  intros Hpoll Hlog. induction l as [|[name p] l IH]; simpl.
  - apply emits_ret.
  - apply emits_bind.
    + apply emits_poll. intros r. apply (Hpoll (name, p)). now left.
    + intros [code|].
      * apply emits_bind; [now apply emits_log | intros _; apply emits_ret].
      * apply IH. intros np r Hin. apply Hpoll. now right.
Qed.

Lemma emits_track_finished (l : procs) :
  (forall np r, In np l -> P (EvPoll (pid (snd np)) r)) ->
  (forall name code, P (EvLog INFO (ClientFinished name code))) ->
  forall finished, emits P E (track_finished env l finished).
Proof.
  intros Hpoll Hlog. induction l as [|[name p] l IH]; intros finished; simpl.
  - apply emits_ret.
  - apply emits_bind.
    + apply emits_poll. intros r. apply (Hpoll (name, p)). now left.
    + intros [code|].
      * apply emits_bind; [now apply emits_log|].
        intros _. apply IH. intros np r Hin. apply Hpoll. now right.
      * apply IH. intros np r Hin. apply Hpoll. now right.
Qed.

End Emitting.

Lemma In_dict_pop (d : procs) (k : string) (x : proc) :
  In x (dict_pop d k) -> In x d.
Proof.
  induction d as [|[k' v'] d IH]; simpl; [auto|].
  destruct (String.eqb k k'); simpl; intuition.
Qed.

Lemma In_pop_all (finished : list string) : forall (d : procs) (x : proc),
  In x (fold_left dict_pop finished d) -> In x d.
Proof.
  induction finished as [|k finished IH]; simpl; intros d x H; [assumption|].
  apply IH in H. eapply In_dict_pop; eassumption.
Qed.

Lemma In_dict_set (d : procs) (k : string) (v : Popen) (x : proc) :
  In x (dict_set d k v) -> In x d \/ x = (k, v).
Proof.
  induction d as [|[k' v'] d IH]; simpl.
  - intros [<-|[]]. now right.
  - destruct (String.eqb_spec k k'); simpl.
    + subst. intros [<-|H]; auto.
    + intros [<-|H]; auto. apply IH in H. tauto.
Qed.

Lemma In_dict_from (pairs : procs) : forall (acc : procs) (x : proc),
  In x (fold_left (fun d kv => dict_set d (fst kv) (snd kv)) pairs acc) ->
  In x acc \/ In x pairs.
Proof.
  induction pairs as [|[k v] pairs IH]; simpl; intros acc x H; [auto|].
  apply IH in H. destruct H as [H|H]; [|auto].
  apply In_dict_set in H. simpl in H. destruct H as [H|H]; auto.
Qed.

Lemma In_dict (pairs : procs) (x : proc) : In x (dict pairs) -> In x pairs.
Proof.
  intros H. apply In_dict_from in H. destruct H as [[]|H]. exact H.
Qed.

Lemma In_pids (l : procs) (x : proc) : In x l -> In (pid (snd x)) (pids l).
Proof. intros H. unfold pids. now apply in_map with (f := fun np => pid (snd np)). Qed.

Section MonitorEmits.

Variable env : Env.
Variables services clients : procs.

Lemma emits_wait_loop (fuel : nat) : forall remaining,
  (forall x, In x remaining -> In x clients) ->
  emits (monitor_event services clients) (eq KeyboardInterrupt)
        (wait_loop env fuel services remaining).
Proof.
  induction fuel as [|fuel IH]; intros remaining Hrem;
    destruct remaining as [|c remaining]; try apply emits_ret.
  - intros s r s' H. inversion H; subst. split; [|discriminate].
    exists []. now rewrite app_nil_r.
  - rewrite wait_loop_S.
    apply emits_bind; [apply emits_sleep; simpl; auto|]. intros _.
    apply emits_bind.
    + apply emits_check_services; simpl; auto.
      intros np r Hin. left. now apply In_pids.
    + intros [|]; [apply emits_ret|].
      apply emits_bind.
      * apply emits_track_finished; simpl; auto.
        intros np r Hin. right. apply In_pids. now apply Hrem.
      * intros finished. apply IH.
        intros x Hx. apply Hrem. eapply In_pop_all; eassumption.
Qed.

Lemma emits_wait_for_clients (fuel : nat) :
  emits (monitor_event services clients) (eq KeyboardInterrupt)
        (wait_for_clients env fuel clients services).
Proof.
  unfold wait_for_clients, monitor.
  apply emits_bind; [apply emits_log; exact I|]. intros _.
  apply emits_bind; [apply emits_wait_loop; apply In_dict|].
  intros [|]; [apply emits_ret | apply emits_log; exact I].
Qed.

Lemma monitor_event_calls (t : list event) :
  Forall (monitor_event services clients) t ->
  Forall (monitor_call services clients) (requests t) /\
  failed_in t = false /\ spawns t = [].
Proof.
  induction 1 as [|e t He Ht IH]; [repeat split; constructor|].
  destruct IH as (IH1 & IH2 & IH3).
  destruct e; simpl in He; try contradiction; simpl; repeat split; auto.
  - constructor; [left; now subst | exact IH1].
  - constructor; [right; eauto | exact IH1].
Qed.

End MonitorEmits.

(** X5.  In every system and however it ends, the monitor only observes: each
    call it makes is the one-second sleep or a poll of a handle it was given
    (a service or a client); it creates no process, signals none, and raises
    nothing but [KeyboardInterrupt], which it raises exactly when a SIGINT
    arrived during it. *)
Theorem monitor_only_observes (env : Env) (fuel : nat) (clients services : procs)
        (s : State) :
  exists new,
    trace (snd (wait_for_clients env fuel clients services s)) = trace s ++ new /\
    Forall (monitor_call services clients) (requests new) /\
    filter is_signal (requests new) = [] /\
    spawns new = [] /\
    (forall e, fst (wait_for_clients env fuel clients services s) = Raise e ->
               e = KeyboardInterrupt) /\
    (fst (wait_for_clients env fuel clients services s) = Raise KeyboardInterrupt <->
     interrupted_in new = true).
Proof.
  destruct (wait_for_clients env fuel clients services s) as [r s'] eqn:H.
  pose proof (ir_wait_for_clients env fuel clients services s r s' H)
    as (new' & Ht' & Hki).
  apply emits_wait_for_clients in H. destruct H as [(new & Ht & Hf) Hr].
  assert (new' = new) by (rewrite Ht in Ht'; now apply app_inv_head in Ht').
  subst new'.
  apply monitor_event_calls in Hf. destruct Hf as (Hc & _ & Hs).
  exists new. split; [exact Ht|]. split; [exact Hc|].
  split; [|split; [exact Hs|split]].
  - clear -Hc. induction Hc as [|q t Hq _ IH]; [reflexivity|].
    destruct Hq as [->|(p & -> & _)]; simpl; exact IH.
  - intros e He. symmetry. now apply Hr.
  - simpl fst. rewrite interrupted_in_spec. symmetry. exact Hki.
Qed.

(** ** Starting, in every system *)

Lemma failed_in_app (a b : list event) :
  failed_in (a ++ b) = failed_in a || failed_in b.
Proof. apply existsb_app. Qed.

Lemma children_app (a b : list event) : children (a ++ b) = children a ++ children b.
Proof. apply flat_map_app. Qed.

Section StartingAnywhere.

Variable env : Env.

Lemma start_group_from_app (pre rest : list (string * string)) :
  forall started s,
  start_group_from env (pre ++ rest) started s
  = bind (start_group_from env pre started) (start_group_from env rest) s.
Proof.
  induction pre as [|[node_name script] pre IH]; intros started s; [reflexivity|].
  simpl. unfold bind.
  destruct (start_node env node_name script s) as [[p|e|] s1]; try reflexivity.
  destruct (sleep env 500 s1) as [[[]|e|] s2]; try reflexivity.
  rewrite IH. reflexivity.
Qed.

Lemma children_start_trace (group : list (string * string)) : forall c,
  children (start_trace env c group) = seq c (length group).
Proof.
  induction group as [|[node_name script] group IH]; intros c; simpl; [reflexivity|].
  f_equal. apply IH.
Qed.

Lemma start_group_from_any (group : list (string * string)) :
  forall started s r s',
  start_group_from env group started s = (r, s') ->
  exists new,
    trace s' = trace s ++ new /\
    (exists rest, start_requests (executable env) group = requests new ++ rest) /\
    (forall ps, r = Ok ps -> requests new = start_requests (executable env) group) /\
    (r = Raise OSError <-> failed_in new = true).
Proof.
  induction group as [|[node_name script] group IH]; intros started s r s' H.
  - inversion H; subst. exists []. rewrite app_nil_r.
    split; [reflexivity|]. split; [now exists []|].
    split; [reflexivity | split; discriminate].
  - simpl in H. unfold bind at 1 in H.
    unfold start_node in H. rewrite bind_log in H.
    unfold Popen_new, syscall in H. simpl in H.
    destruct (interrupted env (tick s)).
    { inversion H; subst.
      exists [EvLog INFO (Starting node_name); EvSigint].
      split; [simpl; now rewrite <- app_assoc|].
      split; [eexists; reflexivity|].
      split; [discriminate | split; discriminate]. }
    destruct (spawn_error env (tick s)).
    { inversion H; subst.
      exists [EvLog INFO (Starting node_name);
              EvSpawn [executable env; script; node_name] None].
      split; [simpl; now rewrite <- app_assoc|].
      split; [eexists; reflexivity|].
      split; [discriminate | split; reflexivity]. }
    unfold bind at 1 in H. unfold sleep, syscall in H. simpl in H.
    destruct (interrupted env (S (tick s))).
    { inversion H; subst.
      exists [EvLog INFO (Starting node_name);
              EvSpawn [executable env; script; node_name] (Some (next_pid s));
              EvSigint].
      split; [simpl; now rewrite <- !app_assoc|].
      split; [eexists; reflexivity|].
      split; [discriminate | split; discriminate]. }
    apply IH in H. simpl in H.
    destruct H as (new & Ht & (rest & Hp) & Hok & Hiff).
    exists ([EvLog INFO (Starting node_name);
             EvSpawn [executable env; script; node_name] (Some (next_pid s));
             EvSleep 500] ++ new).
    split; [rewrite Ht; now rewrite <- !app_assoc|].
    split; [exists rest; simpl; now rewrite Hp|].
    split; [intros ps Hps; simpl; now rewrite (Hok ps Hps)|].
    rewrite failed_in_app. simpl. exact Hiff.
Qed.

End StartingAnywhere.

(** X1.  When the creations of a group succeed up to one that fails (and no
    SIGINT arrives meanwhile), [start_group] raises the [OSError] instead of
    returning: the nodes before the failing one have been created, each
    followed by its pause, the nodes after it are not attempted, and no list
    of handles comes back to the caller. *)
Theorem start_group_stops_at_first_failure (env : Env)
        (pre post : list (string * string)) (node_name script : string)
        (s : State) :
  quiet env (tick s) (2 * length pre + 1) = true ->
  spawns_succeed env (tick s) (length pre) = true ->
  spawn_error env (tick s + 2 * length pre) = true ->
  exists s' new,
    start_group env (pre ++ (node_name, script) :: post) s = (Raise OSError, s') /\
    trace s' = trace s ++ new /\
    requests new
    = start_requests (executable env) pre
      ++ [RSpawn [executable env; script; node_name]] /\
    children new = seq (next_pid s) (length pre) /\
    next_pid s' = next_pid s + length pre.
Proof.
  intros Hq Hs He.
  apply quiet_split in Hq. destruct Hq as [Hq Hq1].
  apply quiet_S in Hq1. destruct Hq1 as [Hi _].
  unfold start_group. rewrite start_group_from_app. unfold bind at 1.
  rewrite start_group_from_run by assumption.
  simpl start_group_from. unfold bind at 1.
  unfold start_node. rewrite bind_log.
  unfold Popen_new, syscall. simpl tick.
  change (length pre + (length pre + 0)) with (2 * length pre).
  rewrite Hi, He.
  eexists.
  exists (start_trace env (next_pid s) pre
          ++ [EvLog INFO (Starting node_name);
              EvSpawn [executable env; script; node_name] None]).
  split; [reflexivity|].
  split; [simpl; now rewrite <- !app_assoc|].
  split; [rewrite requests_app, requests_start_trace; reflexivity|].
  split; [|reflexivity].
  rewrite children_app, children_start_trace. simpl. apply app_nil_r.
Qed.

Lemma start_group_stops_at_first_failure_witness :
  exists s' new,
    start_group third_spawn_fails
                ([("Q1", "q1_node.py"); ("D", "d_node.py")]
                 ++ ("P11", "p1x_service.py") :: [("P12", "p1x_service.py")]) init
    = (Raise OSError, s') /\
    trace s' = trace init ++ new /\
    requests new
    = start_requests (executable third_spawn_fails)
                     [("Q1", "q1_node.py"); ("D", "d_node.py")]
      ++ [RSpawn [executable third_spawn_fails; "p1x_service.py"; "P11"]] /\
    children new = seq (next_pid init) (length [("Q1", "q1_node.py"); ("D", "d_node.py")]) /\
    next_pid s' = next_pid init + length [("Q1", "q1_node.py"); ("D", "d_node.py")].
Proof.
  apply (start_group_stops_at_first_failure third_spawn_fails
           [("Q1", "q1_node.py"); ("D", "d_node.py")] [("P12", "p1x_service.py")]
           "P11" "p1x_service.py" init); reflexivity.
Defined.

(** X2.  In every system and however it ends, [start_group] starts the nodes
    strictly in the order of the group, each creation followed by the
    half-second pause: the calls it has made are an initial segment of that
    sequence, and the whole of it when it returned, with the handles of all
    the nodes.  It raises [OSError] exactly when a creation failed and
    [KeyboardInterrupt] exactly when a SIGINT arrived, and it never retries. *)
Theorem start_group_calls_in_order (env : Env) (group : list (string * string))
        (s : State) :
  exists new,
    trace (snd (start_group env group s)) = trace s ++ new /\
    (exists rest, start_requests (executable env) group = requests new ++ rest) /\
    (forall ps, fst (start_group env group s) = Ok ps ->
       requests new = start_requests (executable env) group /\
       ps = started_procs env (next_pid s) group) /\
    (fst (start_group env group s) = Raise OSError <-> failed_in new = true) /\
    (fst (start_group env group s) = Raise KeyboardInterrupt <->
     interrupted_in new = true) /\
    fst (start_group env group s) <> Pending.
Proof.
  unfold start_group.
  destruct (start_group_from env group [] s) as [r s'] eqn:H. simpl fst. simpl snd.
  pose proof (start_group_from_any env group [] s r s' H)
    as (new & Ht & Hp & Hok & Hiff).
  pose proof (start_group_from_inv env group [] s r s' H) as (_ & Hnp & Hps).
  pose proof (ir_start_group_from env group [] s r s' H) as (new' & Ht' & Hki).
  assert (new' = new) by (rewrite Ht in Ht'; now apply app_inv_head in Ht').
  subst new'.
  exists new. split; [exact Ht|]. split; [exact Hp|].
  split; [intros ps Hr; split; [now apply (Hok ps) | now apply Hps]|].
  split; [exact Hiff|]. split; [|exact Hnp].
  rewrite interrupted_in_spec. symmetry. exact Hki.
Qed.

(** ** The pending set after an iteration *)

Lemma pop_all_skips (finished : list string) : forall (name : string) (p : Popen) (d : procs),
  ~ In name finished ->
  fold_left dict_pop finished ((name, p) :: d)
  = (name, p) :: fold_left dict_pop finished d.
Proof.
  induction finished as [|k finished IH]; intros name p d Hn; [reflexivity|].
  simpl. destruct (String.eqb_spec k name) as [->|Hne].
  - exfalso. apply Hn. now left.
  - apply IH. intros Hin. apply Hn. now right.
Qed.

Section PendingSet.

Variable env : Env.

Lemma exited_incl (l : procs) : forall n x,
  In x (exited env n l) -> In x (names l).
Proof.
  induction l as [|[name p] l IH]; simpl; intros n x H; [contradiction|].
  destruct (exit_status env n (pid p)); [destruct H as [H|H]|]; eauto.
Qed.

Lemma pop_exited (l : procs) : forall n,
  NoDup (names l) ->
  fold_left dict_pop (exited env n l) l = still_running env n l.
Proof.
  induction l as [|[name p] l IH]; intros n Hnd; [reflexivity|].
  inversion Hnd as [|? ? Hnot Hrest]; subst. simpl.
  destruct (exit_status env n (pid p)).
  - simpl. rewrite String.eqb_refl. now apply IH.
  - rewrite pop_all_skips.
    + f_equal. now apply IH.
    + intros Hin. apply Hnot. eapply exited_incl; eassumption.
Qed.

End PendingSet.

(** X10.  After an iteration of the loop in which no service is found exited
    and no SIGINT arrives, the monitor goes on with exactly the pending
    clients that their poll reported running, in their order; those reported
    exited are gone from the pending set.  (Pending names are distinct, as
    they are in a dictionary.) *)
Theorem pending_set_after_iteration (env : Env) (fuel : nat)
        (services remaining : procs) (s : State) :
  remaining <> [] ->
  NoDup (names remaining) ->
  quiet env (tick s) (1 + length services + length remaining) = true ->
  all_running env (S (tick s)) services = true ->
  monitor env (S fuel) services remaining s
  = monitor env fuel services
      (still_running env (tick s + 1 + length services) remaining)
      (mkState (tick s + 1 + length services + length remaining) (next_pid s) (frame s)
               (trace s ++ [EvSleep 1000] ++ polls_running services
                ++ track_trace env (tick s + 1 + length services) remaining)).
Proof.
  intros Hne Hnd Hq Hr.
  rewrite monitor_iteration by assumption.
  now rewrite pop_exited.
Qed.

Lemma pending_set_after_iteration_witness :
  monitor middle_client_exited 1 [worker 0 "S1"; worker 1 "S2"]
          [worker 2 "K1"; worker 3 "K2"; worker 4 "K3"] init
  = monitor middle_client_exited 0 [worker 0 "S1"; worker 1 "S2"]
      (still_running middle_client_exited
         (tick init + 1 + length [worker 0 "S1"; worker 1 "S2"])
         [worker 2 "K1"; worker 3 "K2"; worker 4 "K3"])
      (mkState (tick init + 1 + length [worker 0 "S1"; worker 1 "S2"]
                + length [worker 2 "K1"; worker 3 "K2"; worker 4 "K3"])
               (next_pid init) (frame init)
               (trace init ++ [EvSleep 1000]
                ++ polls_running [worker 0 "S1"; worker 1 "S2"]
                ++ track_trace middle_client_exited
                     (tick init + 1 + length [worker 0 "S1"; worker 1 "S2"])
                     [worker 2 "K1"; worker 3 "K2"; worker 4 "K3"])).
Proof.
  apply (pending_set_after_iteration middle_client_exited 0
           [worker 0 "S1"; worker 1 "S2"]
           [worker 2 "K1"; worker 3 "K2"; worker 4 "K3"] init).
  - discriminate.
  - repeat constructor; simpl; intuition discriminate.
  - reflexivity.
  - reflexivity.
Defined.

(** ** The run of [main], in every system *)

Lemma monitor_call_no_signal (services clients : procs) (l : list request) :
  Forall (monitor_call services clients) l -> filter is_signal l = [].
Proof.
  induction 1 as [|q t Hq _ IH]; [reflexivity|].
  destruct Hq as [->|(p & -> & _)]; simpl; exact IH.
Qed.

Lemma filter_prefix_nil {A : Type} (f : A -> bool) (l a b : list A) :
  l = a ++ b -> filter f l = [] -> filter f a = [].
Proof.
  intros -> H. rewrite filter_app in H. now apply app_eq_nil in H.
Qed.

Lemma startup_requests_no_signal (exe : string) :
  filter is_signal (startup_requests exe) = [].
Proof. reflexivity. Qed.

Section MainAnywhere.

Variable env : Env.

Lemma sleep_any (ms : nat) (s : State) (r : result unit) (s' : State) :
  sleep env ms s = (r, s') ->
  (r = Raise KeyboardInterrupt /\ s' = advance EvSigint s) \/
  (r = Ok tt /\ s' = advance (EvSleep ms) s).
Proof.
  unfold sleep, syscall. destruct (interrupted env (tick s)); intros H;
    inversion H; subst; auto.
Qed.

Opaque NODES CLIENT_NODES.

Lemma main_try_calls (fuel : nat) (s0 : State) (r1 : result unit) (s1 : State) :
  main_try env fuel s0 = (r1, s1) ->
  exists new,
    trace s1 = trace s0 ++ new /\
    ((exists rest, startup_requests (executable env) = requests new ++ rest) \/
     (exists rest,
        requests new = startup_requests (executable env) ++ rest /\
        Forall (monitor_call
                  (started_procs env (next_pid s0) NODES)
                  (started_procs env (next_pid s0 + length NODES) CLIENT_NODES))
               rest)) /\
    (r1 = Raise OSError <-> failed_in new = true).
Proof.
  intros H. unfold main_try in H. rewrite !bind_log in H.
  apply bind_inv in H.
  destruct H as [(sv & s2 & E & H) | [(e & E & ->) | (E & ->)]].
  3: { apply start_group_from_inv in E. destruct E as (_ & Hr & _). contradiction. }
  2: { pose proof (start_group_from_any env NODES [] _ _ _ E)
         as (new1 & Ht & (rest & Hp) & _ & Hiff).
       exists ([EvLog INFO (Text rule);
                EvLog INFO (Text "STARTING DISTRIBUTED SYSTEM");
                EvLog INFO (Text rule)] ++ new1).
       split; [rewrite Ht; simpl; now rewrite <- !app_assoc|].
       split.
       - left. exists (rest ++ [RSleep 3000]
                        ++ start_requests (executable env) CLIENT_NODES).
         unfold startup_requests. rewrite Hp, requests_app. simpl.
         now rewrite <- app_assoc.
       - rewrite failed_in_app. simpl.
         split; [intros Heq; apply Hiff; inversion Heq; reflexivity
                | intros Hf; apply Hiff in Hf; inversion Hf; reflexivity]. }
  pose proof (start_group_from_any env NODES [] _ _ _ E)
    as (new1 & Ht1 & _ & Hok1 & Hiff1).
  pose proof (start_group_from_inv env NODES [] _ _ _ E) as (_ & _ & Hps1).
  specialize (Hok1 sv eq_refl). destruct (Hps1 sv eq_refl) as [Hsv Hn2].
  simpl in Hsv, Hn2, Ht1. subst sv.
  assert (Hf1 : failed_in new1 = false).
  { destruct (failed_in new1); [|reflexivity].
    destruct Hiff1 as [_ Hc]. discriminate (Hc eq_refl). }
  clear Hiff1 Hps1 E.
  unfold bind at 1 in H. unfold set_service_procs at 1 in H.
  rewrite bind_log in H.
  apply bind_inv in H.
  destruct H as [([] & s3 & E & H) | [(e & E & ->) | (E & ->)]];
    apply sleep_any in E;
    destruct E as [[Hrs Hss] | [Hrs Hss]]; try discriminate; subst.
  2: { inversion Hrs; subst.
       exists ([EvLog INFO (Text rule);
                EvLog INFO (Text "STARTING DISTRIBUTED SYSTEM");
                EvLog INFO (Text rule)] ++ new1
               ++ [EvLog INFO (Text (nl ++ "All system nodes started. Waiting for initialization..."));
                   EvSigint]).
       split; [simpl; rewrite Ht1; simpl; now rewrite <- !app_assoc|].
       split.
       - left. exists ([RSleep 3000] ++ start_requests (executable env) CLIENT_NODES).
         unfold startup_requests. rewrite !requests_app, Hok1. simpl.
         now rewrite app_nil_r.
       - rewrite !failed_in_app, Hf1. simpl. split; discriminate. }
  rewrite !bind_log in H.
  apply bind_inv in H.
  destruct H as [(cl & s4 & E & H) | [(e & E & ->) | (E & ->)]].
  3: { apply start_group_from_inv in E. destruct E as (_ & Hr & _). contradiction. }
  2: { pose proof (start_group_from_any env CLIENT_NODES [] _ _ _ E)
         as (new2 & Ht2 & (rest & Hp) & _ & Hiff).
       exists ([EvLog INFO (Text rule);
                EvLog INFO (Text "STARTING DISTRIBUTED SYSTEM");
                EvLog INFO (Text rule)] ++ new1
               ++ [EvLog INFO (Text (nl ++ "All system nodes started. Waiting for initialization..."));
                   EvSleep 3000;
                   EvLog INFO (Text (nl ++ rule));
                   EvLog INFO (Text "STARTING CLIENTS");
                   EvLog INFO (Text rule)] ++ new2).
       split; [rewrite Ht2; simpl; rewrite Ht1; simpl; now rewrite <- !app_assoc|].
       split.
       - left. exists rest.
         unfold startup_requests. rewrite !requests_app, Hok1, Hp. simpl.
         now rewrite <- !app_assoc.
       - rewrite !failed_in_app, Hf1. simpl.
         split; [intros Heq; apply Hiff; inversion Heq; reflexivity
                | intros Hf; apply Hiff in Hf; inversion Hf; reflexivity]. }
  pose proof (start_group_from_any env CLIENT_NODES [] _ _ _ E)
    as (new2 & Ht2 & _ & Hok2 & Hiff2).
  pose proof (start_group_from_inv env CLIENT_NODES [] _ _ _ E) as (_ & _ & Hps2).
  specialize (Hok2 cl eq_refl). destruct (Hps2 cl eq_refl) as [Hcl Hn4].
  simpl in Hcl, Hn4, Ht2. subst cl.
  assert (Hf2 : failed_in new2 = false).
  { destruct (failed_in new2); [|reflexivity].
    destruct Hiff2 as [_ Hc]. discriminate (Hc eq_refl). }
  clear Hiff2 Hps2 E.
  unfold bind at 1 in H. unfold set_client_procs at 1 in H.
  rewrite bind_log in H.
  apply emits_wait_for_clients in H. destruct H as [(new3 & Ht3 & Hf3) Hr3].
  apply monitor_event_calls in Hf3. destruct Hf3 as (Hc3 & Hfail3 & _).
  rewrite Hn2 in Hc3.
  exists ([EvLog INFO (Text rule);
           EvLog INFO (Text "STARTING DISTRIBUTED SYSTEM");
           EvLog INFO (Text rule)] ++ new1
          ++ [EvLog INFO (Text (nl ++ "All system nodes started. Waiting for initialization..."));
              EvSleep 3000;
              EvLog INFO (Text (nl ++ rule));
              EvLog INFO (Text "STARTING CLIENTS");
              EvLog INFO (Text rule)] ++ new2
          ++ [EvLog INFO (Text (nl ++ "All clients started. System is now running."))]
          ++ new3).
  split; [rewrite Ht3; simpl; rewrite Ht2; simpl; rewrite Ht1; simpl;
          now rewrite <- !app_assoc|].
  split.
  - right. exists (requests new3). split; [|exact Hc3].
    unfold startup_requests. rewrite !requests_app, Hok1, Hok2. simpl.
    now rewrite <- !app_assoc.
  - rewrite !failed_in_app, Hf1, Hf2, Hfail3. simpl. split; [|discriminate].
    intros ->. discriminate (Hr3 OSError eq_refl).
Qed.

Transparent NODES CLIENT_NODES.

Lemma stop_processes_cases (l : procs) (s : State) (r : result unit) (s' : State) :
  stop_processes env l s = (r, s') ->
  exists new,
    trace s' = trace s ++ new /\ frame s' = frame s /\
    ((r = Ok tt /\ requests new = stop_requests l) \/
     (r = Raise KeyboardInterrupt /\
      exists j, requests new = firstn j (stop_requests l))).
Proof.
  intros H.
  destruct (stop_processes_any env l s) as (s1 & new & Hs & Ht & _ & Hf & Hc).
  rewrite H in Hs, Hc. simpl in Hs, Hc. subst s1.
  exists new. split; [exact Ht|]. split; [exact Hf|].
  destruct Hc as [(-> & _ & Hq) | (-> & _ & j & _ & Hq)]; [left | right]; eauto.
Qed.

Lemma main_finally_any (s : State) (r : result unit) (s' : State) :
  main_finally env s = (r, s') ->
  exists new rest,
    trace s' = trace s ++ new /\
    stop_requests (bound (client_procs (frame s)))
    ++ stop_requests (bound (service_procs (frame s)))
    = requests new ++ rest /\
    (r = Ok tt \/ r = Raise KeyboardInterrupt) /\
    (r = Ok tt -> rest = []).
Proof.
  intros H. unfold main_finally in H. rewrite !bind_log in H.
  apply bind_inv in H.
  destruct H as [([] & s1 & E & H) | [(e & E & ->) | (E & ->)]];
    cbv beta in E; apply stop_processes_cases in E;
    destruct E as (n1 & Ht1 & Hf1 & [(Hr1 & Hq1) | (Hr1 & j & Hq1)]);
    try discriminate; simpl in Ht1, Hf1.
  2: { inversion Hr1; subst.
       exists ([EvLog INFO (Text (nl ++ rule));
                EvLog INFO (Text "SHUTTING DOWN DISTRIBUTED SYSTEM");
                EvLog INFO (Text rule)] ++ n1),
              (skipn j (stop_requests (bound (client_procs (frame s))))
               ++ stop_requests (bound (service_procs (frame s)))).
       split; [rewrite Ht1; now rewrite <- !app_assoc|].
       split; [|split; [now right | discriminate]].
       rewrite requests_app, Hq1. simpl.
       now rewrite app_assoc, firstn_skipn. }
  apply bind_inv in H.
  destruct H as [([] & s2 & E & H) | [(e & E & ->) | (E & ->)]];
    cbv beta in E; apply stop_processes_cases in E;
    destruct E as (n2 & Ht2 & Hf2 & [(Hr2 & Hq2) | (Hr2 & j & Hq2)]);
    try discriminate; rewrite Hf1 in Hq2.
  - inversion H; subst.
    exists ([EvLog INFO (Text (nl ++ rule));
             EvLog INFO (Text "SHUTTING DOWN DISTRIBUTED SYSTEM");
             EvLog INFO (Text rule)] ++ n1 ++ n2
            ++ [EvLog INFO (Text "All nodes stopped.")]), [].
    split; [simpl; rewrite Ht2, Ht1; now rewrite <- !app_assoc|].
    split; [|split; [now left | reflexivity]].
    rewrite !requests_app, Hq1, Hq2. simpl. now rewrite !app_nil_r.
  - inversion Hr2; subst.
    exists ([EvLog INFO (Text (nl ++ rule));
             EvLog INFO (Text "SHUTTING DOWN DISTRIBUTED SYSTEM");
             EvLog INFO (Text rule)] ++ n1 ++ n2),
           (skipn j (stop_requests (bound (service_procs (frame s))))).
    split; [rewrite Ht2, Ht1; now rewrite <- !app_assoc|].
    split; [|split; [now right | discriminate]].
    rewrite !requests_app, Hq1, Hq2. simpl.
    now rewrite <- app_assoc, firstn_skipn.
Qed.

End MainAnywhere.

(** X8.  In every system, the guarded part of [main] makes its calls in one
    order: the services, one after the other, each followed by its pause;
    the three-second pause; the clients likewise; and only then the calls of
    the monitor on the handles of the two groups.  Either the calls made are
    an initial segment of the two starts (a start failed or was interrupted),
    or they are the two starts in full followed by sleeps and polls of the
    monitor.  So no client is created before every service was, and nothing
    is polled before both groups are started. *)
Theorem main_startup_order (env : Env) (fuel : nat) :
  (exists rest,
     startup_requests (executable env)
     = requests (trace (at_shutdown env fuel)) ++ rest) \/
  (exists rest,
     requests (trace (at_shutdown env fuel))
     = startup_requests (executable env) ++ rest /\
     Forall (monitor_call (started_procs env 0 NODES)
                          (started_procs env (length NODES) CLIENT_NODES))
            rest).
Proof.
  unfold at_shutdown.
  destruct (main_try env fuel init) as [r1 s1] eqn:E. simpl snd.
  apply main_try_calls in E. destruct E as (new & Ht & Hc & _).
  simpl in Ht. rewrite Ht. exact Hc.
Qed.

(** X7.  In every system, interrupted or not: the guarded part of [main]
    sends no signal to any process; the calls [main] makes after it are an
    initial segment of the stop of the client list followed by the stop of
    the service list, as [main] has them bound, and the whole of it when
    [main] returns or lets an [OSError] out; and an [OSError] leaves [main]
    only if a process creation failed. *)
Theorem main_signals_only_bound_lists (env : Env) (fuel : nat) :
  exists new rest,
    trace (snd (main env fuel init)) = trace (at_shutdown env fuel) ++ new /\
    filter is_signal (requests (trace (at_shutdown env fuel))) = [] /\
    stop_requests (client_list env fuel) ++ stop_requests (service_list env fuel)
    = requests new ++ rest /\
    (fst (main env fuel init) = Ok tt \/ fst (main env fuel init) = Raise OSError ->
     rest = []) /\
    (fst (main env fuel init) = Raise OSError ->
     failed_in (trace (at_shutdown env fuel)) = true).
Proof.
  unfold client_list, service_list, at_shutdown, main, try_finally, try_except.
  destruct (main_try env fuel init) as [r1 s1] eqn:E. simpl snd.
  apply main_try_calls in E. destruct E as (new1 & Ht1 & Hc1 & Hiff1).
  simpl in Ht1.
  assert (Hsig : filter is_signal (requests (trace s1)) = []).
  { rewrite Ht1. destruct Hc1 as [(rest & Hp) | (rest & Hp & Hm)].
    - eapply filter_prefix_nil; [exact Hp | apply startup_requests_no_signal].
    - rewrite Hp, filter_app, startup_requests_no_signal.
      simpl. eapply monitor_call_no_signal; eassumption. }
  rewrite <- Ht1 in Hiff1.
  destruct r1 as [[]|[|]|]; cbn [is_KeyboardInterrupt].
  - destruct (main_finally env s1) as [r s2] eqn:F.
    apply main_finally_any in F. destruct F as (new & rest & Ht & Hp & Hr & Hfull).
    exists new, rest.
    destruct Hr as [-> | ->]; simpl fst; simpl snd;
      (split; [exact Ht|]); (split; [exact Hsig|]); (split; [exact Hp|]);
      (split; [|discriminate]).
    + intros _. now apply Hfull.
    + intros [H|H]; discriminate.
  - unfold log. cbv beta iota.
    destruct (main_finally env (emit (EvLog INFO (Text "Shutdown requested by user.")) s1))
      as [r s2] eqn:F.
    apply main_finally_any in F. destruct F as (new & rest & Ht & Hp & Hr & Hfull).
    simpl in Ht, Hp.
    exists ([EvLog INFO (Text "Shutdown requested by user.")] ++ new), rest.
    destruct Hr as [-> | ->]; simpl fst; simpl snd;
      (split; [rewrite Ht; now rewrite <- app_assoc|]); (split; [exact Hsig|]);
      (split; [rewrite requests_app; exact Hp|]);
      (split; [|discriminate]).
    + intros _. now apply Hfull.
    + intros [H|H]; discriminate.
  - destruct (main_finally env s1) as [r s2] eqn:F.
    apply main_finally_any in F. destruct F as (new & rest & Ht & Hp & Hr & Hfull).
    exists new, rest.
    destruct Hr as [-> | ->]; simpl fst; simpl snd;
      (split; [exact Ht|]); (split; [exact Hsig|]); (split; [exact Hp|]).
    + split; [intros _; now apply Hfull | intros _; now apply Hiff1].
    + split; [intros [H|H]; discriminate | discriminate].
  - exists [], (stop_requests (bound (client_procs (frame s1)))
                ++ stop_requests (bound (service_procs (frame s1)))).
    simpl fst; simpl snd. rewrite app_nil_r.
    split; [reflexivity|]. split; [exact Hsig|]. split; [reflexivity|].
    split; [intros [H|H]; discriminate | discriminate].
Qed.

(** X9.  When the guarded part of [main] has ended and no SIGINT arrives
    during the shutdown, [main] lets an [OSError] out exactly when a process
    creation failed, after the shutdown has run, and returns normally exactly
    when none failed: a failed start is never swallowed and nothing else
    makes the run fail. *)
Theorem main_fails_iff_spawn_failed (env : Env) (fuel : nat) :
  guarded_result env fuel <> Pending ->
  quiet env (tick (at_shutdown env fuel)) (shutdown_calls env fuel) = true ->
  (fst (main env fuel init) = Raise OSError <->
   failed_in (trace (at_shutdown env fuel)) = true) /\
  (fst (main env fuel init) = Ok tt <->
   failed_in (trace (at_shutdown env fuel)) = false).
Proof.
  intros Hr Hq.
  destruct (main_run env fuel Hr Hq) as (s2 & new & Hm & _).
  rewrite Hm. simpl fst.
  unfold guarded_result, at_shutdown in *.
  destruct (main_try env fuel init) as [r1 s1] eqn:E. simpl fst in *. simpl snd.
  apply main_try_calls in E. destruct E as (new1 & Ht1 & _ & Hiff1).
  simpl in Ht1. rewrite Ht1.
  destruct r1 as [[]|[|]|]; [| | |contradiction].
  - destruct (failed_in new1).
    + destruct Hiff1 as [_ H]. discriminate (H eq_refl).
    + repeat split; auto; discriminate.
  - destruct (failed_in new1).
    + destruct Hiff1 as [_ H]. discriminate (H eq_refl).
    + repeat split; auto; discriminate.
  - destruct Hiff1 as [H _]. rewrite (H eq_refl).
    repeat split; auto; discriminate.
Qed.

Lemma main_fails_iff_spawn_failed_witness :
  (fst (main second_client_spawn_fails 0 init) = Raise OSError <->
   failed_in (trace (at_shutdown second_client_spawn_fails 0)) = true) /\
  (fst (main second_client_spawn_fails 0 init) = Ok tt <->
   failed_in (trace (at_shutdown second_client_spawn_fails 0)) = false).
Proof.
  apply (main_fails_iff_spawn_failed second_client_spawn_fails 0).
  - vm_compute. discriminate.
  - vm_compute. reflexivity.
Defined.

(** ** The monitor ends when the clients have exited *)

Lemma quiet_of_forall (env : Env) : forall m n,
  (forall k, n <= k -> interrupted env k = false) -> quiet env n m = true.
Proof.
  induction m as [|m IH]; intros n H; simpl; [reflexivity|].
  rewrite H by lia. simpl. apply IH. intros k Hk. apply H. lia.
Qed.

Lemma all_running_of_forall (env : Env) (l : procs) :
  (forall n x, In x l -> exit_status env n (pid (snd x)) = None) ->
  forall n, all_running env n l = true.
Proof.
  induction l as [|[name p] l IH]; intros H n; simpl; [reflexivity|].
  pose proof (H n (name, p) (or_introl eq_refl)) as E. simpl in E. rewrite E.
  apply IH. intros k x Hx. apply H. now right.
Qed.

Lemma all_exited_of_forall (env : Env) (T : nat) (l : procs) :
  (forall n x, T <= n -> In x l -> exit_status env n (pid (snd x)) <> None) ->
  forall n, T <= n -> all_exited env n l = true.
Proof.
  induction l as [|[name p] l IH]; intros H n Hn; simpl; [reflexivity|].
  destruct (exit_status env n (pid p)) eqn:E.
  - apply IH; [|lia]. intros k x Hk Hx. apply H; [exact Hk | now right].
  - exfalso. apply (H n (name, p)); [exact Hn | now left | exact E].
Qed.

Section Ending.

Variable env : Env.
Variable T : nat.

(** With no SIGINT, no service ever reported exited and every pending client
    reported exited from call [T] on, the loop is left normally once it is
    allowed enough iterations to get past call [T]. *)
Lemma wait_loop_ends (fuel : nat) : forall services remaining s,
  (forall n, tick s <= n -> interrupted env n = false) ->
  (forall n x, In x services -> exit_status env n (pid (snd x)) = None) ->
  (forall n x, T <= n -> In x remaining -> exit_status env n (pid (snd x)) <> None) ->
  0 < fuel -> T < tick s + fuel ->
  exists s', wait_loop env fuel services remaining s = (Ok false, s').
Proof.
  induction fuel as [|fuel IH]; intros services remaining s Hi Hs Hc Hf HT; [lia|].
  destruct remaining as [|c remaining]; [exists s; reflexivity|].
  rewrite wait_loop_iteration;
    [| discriminate | now apply quiet_of_forall | now apply all_running_of_forall].
  destruct fuel as [|fuel].
  - rewrite all_exited_names
      by (apply (all_exited_of_forall env T); [exact Hc | lia]).
    rewrite pop_all_names. eexists. reflexivity.
  - apply IH.
    + simpl tick. intros n Hn. apply Hi. lia.
    + exact Hs.
    + intros n x Hn Hx. apply Hc; [exact Hn|]. eapply In_pop_all; eassumption.
    + lia.
    + simpl tick. lia.
Qed.

Lemma poll_truthful (p : Popen) : emits (truthful env) (fun _ => True) (poll env p).
Proof.
  intros s r s' H. unfold poll, syscall in H.
  destruct (interrupted env (tick s)); inversion H; subst; (split; [|auto]).
  - exists [EvSigint]. split; [reflexivity | repeat constructor].
  - eexists [_]. split; [reflexivity|]. constructor; [|constructor].
    simpl. eauto.
Qed.

Lemma check_services_truthful (l : procs) :
  emits (truthful env) (fun _ => True) (check_services env l).
Proof.
  induction l as [|[name p] l IH]; simpl; [apply emits_ret|].
  apply emits_bind; [apply poll_truthful|].
  intros [code|]; [|exact IH].
  apply emits_bind; [now apply emits_log | intros _; apply emits_ret].
Qed.

Lemma track_finished_truthful (l : procs) : forall finished,
  emits (truthful env) (fun _ => True) (track_finished env l finished).
Proof.
  induction l as [|[name p] l IH]; intros finished; simpl; [apply emits_ret|].
  apply emits_bind; [apply poll_truthful|].
  intros [code|]; [|apply IH].
  apply emits_bind; [now apply emits_log | intros _; apply IH].
Qed.

Lemma wait_loop_truthful (fuel : nat) : forall services remaining,
  emits (truthful env) (fun _ => True) (wait_loop env fuel services remaining).
Proof.
  induction fuel as [|fuel IH]; intros services remaining;
    destruct remaining as [|c remaining]; try apply emits_ret.
  - intros s r s' H. inversion H; subst. split; [|discriminate].
    exists []. now rewrite app_nil_r.
  - rewrite wait_loop_S.
    apply emits_bind; [apply emits_sleep; simpl; auto|]. intros _.
    apply emits_bind; [apply check_services_truthful|].
    intros [|]; [apply emits_ret|].
    apply emits_bind; [apply track_finished_truthful | intros finished; apply IH].
Qed.

Lemma wait_for_clients_truthful (fuel : nat) (clients services : procs) :
  emits (truthful env) (fun _ => True) (wait_for_clients env fuel clients services).
Proof.
  unfold wait_for_clients, monitor.
  apply emits_bind; [now apply emits_log|]. intros _.
  apply emits_bind; [apply wait_loop_truthful|].
  intros [|]; [apply emits_ret | now apply emits_log].
Qed.

(** A client is recorded as finished only after a poll of its handle that
    reported an exit. *)
Lemma track_finished_polled (items : procs) : forall finished s r s',
  track_finished env items finished s = (r, s') ->
  exists new,
    trace s' = trace s ++ new /\
    forall name, In name (observed new) ->
      exists p code, In (name, p) items /\ In (EvPoll (pid p) (Some code)) new.
Proof.
  induction items as [|[name p] items IH]; intros finished s r s' H.
  - inversion H; subst. exists []. rewrite app_nil_r.
    split; [reflexivity | intros ? []].
  - simpl in H. unfold bind at 1 in H. unfold poll, syscall in H.
    destruct (interrupted env (tick s)).
    + inversion H; subst. exists [EvSigint]. split; [reflexivity | intros ? []].
    + destruct (exit_status env (tick s) (pid p)) as [code|].
      * unfold bind, log in H. apply IH in H. destruct H as (new & Ht & Hl).
        exists ([EvPoll (pid p) (Some code); EvLog INFO (ClientFinished name code)]
                ++ new).
        split; [rewrite Ht; simpl; now rewrite <- !app_assoc|].
        intros x Hx. rewrite observed_app in Hx. simpl in Hx.
        destruct Hx as [<-|Hx].
        -- exists p, code. split; [now left | now left].
        -- destruct (Hl x Hx) as (q & c & Hin & Hev).
           exists q, c. split; [now right | right; right; exact Hev].
      * apply IH in H. destruct H as (new & Ht & Hl).
        exists (EvPoll (pid p) None :: new).
        split; [rewrite Ht; simpl; now rewrite <- app_assoc|].
        intros x Hx. change (observed (EvPoll (pid p) None :: new))
          with (observed new) in Hx.
        destruct (Hl x Hx) as (q & c & Hin & Hev).
        exists q, c. split; [now right | right; exact Hev].
Qed.

Lemma wait_loop_polled (fuel : nat) : forall services remaining s r s',
  wait_loop env fuel services remaining s = (r, s') ->
  exists new,
    trace s' = trace s ++ new /\
    forall name, In name (observed new) ->
      exists p code, In (name, p) remaining /\ In (EvPoll (pid p) (Some code)) new.
Proof.
  induction fuel as [|fuel IH]; intros services remaining s r s' H;
    destruct remaining as [|c remaining].
  1, 2, 3: inversion H; subst; exists []; rewrite app_nil_r;
           (split; [reflexivity | intros ? []]).
  rewrite wait_loop_S in H. apply bind_inv in H.
  destruct H as [([] & s1 & E & H) | [(e & E & ->) | (E & ->)]];
    apply sleep_any in E; destruct E as [[Hr Hs] | [Hr Hs]]; try discriminate; subst.
  2: { exists [EvSigint]. split; [reflexivity | intros ? []]. }
  apply bind_inv in H.
  destruct H as [(b & s2 & E & H) | [(e & E & ->) | (E & ->)]];
    apply check_services_inv in E; destruct E as (new1 & (Ht1 & _) & Ho1 & _).
  2, 3: exists (EvSleep 1000 :: new1);
        (split; [rewrite Ht1; simpl; now rewrite <- app_assoc|]);
        change (observed (EvSleep 1000 :: new1)) with (observed new1);
        rewrite Ho1; intros ? [].
  destruct b.
  { inversion H; subst. exists (EvSleep 1000 :: new1).
    split; [rewrite Ht1; simpl; now rewrite <- app_assoc|].
    change (observed (EvSleep 1000 :: new1)) with (observed new1).
    rewrite Ho1. intros ? []. }
  apply bind_inv in H.
  destruct H as [(finished & s3 & E & H) | [(e & E & ->) | (E & ->)]];
    apply track_finished_polled in E; destruct E as (new2 & Ht2 & Hl2).
  2, 3: exists ((EvSleep 1000 :: new1) ++ new2);
        (split; [rewrite Ht2, Ht1; simpl; now rewrite <- !app_assoc|]);
        rewrite observed_app;
        change (observed (EvSleep 1000 :: new1)) with (observed new1);
        rewrite Ho1; simpl; intros x Hx;
        destruct (Hl2 x Hx) as (q & k & Hin & Hev);
        exists q, k;
        (split; [exact Hin
                | apply (in_or_app (EvSleep 1000 :: new1) new2); right; exact Hev]).
  apply IH in H. destruct H as (new3 & Ht3 & Hl3).
  exists (((EvSleep 1000 :: new1) ++ new2) ++ new3).
  split; [rewrite Ht3, Ht2, Ht1; simpl; now rewrite <- !app_assoc|].
  rewrite !observed_app.
  change (observed (EvSleep 1000 :: new1)) with (observed new1).
  rewrite Ho1. simpl. intros x Hx. apply in_app_or in Hx.
  destruct Hx as [Hx|Hx].
  - destruct (Hl2 x Hx) as (q & k & Hin & Hev).
    exists q, k. split; [exact Hin|].
    apply (in_or_app ((EvSleep 1000 :: new1) ++ new2) new3). left.
    apply (in_or_app (EvSleep 1000 :: new1) new2). right. exact Hev.
  - destruct (Hl3 x Hx) as (q & k & Hin & Hev).
    exists q, k. split; [apply (In_pop_all finished (c :: remaining)); exact Hin|].
    apply (in_or_app ((EvSleep 1000 :: new1) ++ new2) new3). right. exact Hev.
Qed.

End Ending.

(** C2.  A run of the monitor ([wait_for_clients], from any state) in a
    system where, from some call [T] on, every client handle is reported
    exited, where no service is ever reported exited and where no SIGINT
    arrives: once the loop is allowed enough iterations to get past call [T]
    (any bound above [T - tick s] will do), the monitor returns normally and
    its outcome is ClientsFinished.  In that run every client has been
    recorded as finished, each exactly once (a client taken off the pending
    set is not polled into it again), each record following a poll of that
    client's handle whose answer, a non-null exit code, is the one the system
    gave; and the monitor has created no process, so no finished client was
    restarted. *)
Theorem clients_exit_ends_monitor (env : Env) (clients services : procs)
        (s : State) (T fuel : nat) :
  (forall n, tick s <= n -> interrupted env n = false) ->
  (forall n p, In p (pids services) -> exit_status env n p = None) ->
  (forall n p, T <= n -> In p (pids clients) -> exit_status env n p <> None) ->
  0 < fuel ->
  T < tick s + fuel ->
  exists s' new,
    wait_for_clients env fuel clients services s = (Ok tt, s') /\
    outcome (trace s') = Some ClientsFinished /\
    trace s' = trace s ++ new /\
    (forall name, In name (names clients) -> In name (observed new)) /\
    NoDup (observed new) /\
    (forall name, In name (observed new) ->
       exists p code n,
         In (name, p) clients /\
         In (EvPoll (pid p) (Some code)) new /\
         exit_status env n (pid p) = Some code) /\
    spawns new = [] /\
    next_pid s' = next_pid s.
Proof.
  intros Hi Hs Hc Hf HT.
  destruct (wait_loop_ends env T fuel services (dict clients)
              (emit (EvLog INFO Waiting) s)) as [s1 E].
  - exact Hi.
  - intros n x Hx. apply Hs. now apply In_pids.
  - intros n x Hn Hx. apply Hc; [exact Hn|]. apply In_pids. now apply In_dict.
  - exact Hf.
  - exact HT.
  - assert (Hrun : wait_for_clients env fuel clients services s
                   = (Ok tt, emit (EvLog INFO AllClientsFinished) s1)).
    { unfold wait_for_clients, monitor. rewrite bind_log. unfold bind.
      rewrite E. reflexivity. }
    destruct (wait_for_clients_records env fuel clients services s)
      as (new & Ht & Hiff & Hnd & _ & Hsp & Hnp).
    rewrite Hrun in Ht, Hiff, Hnp. simpl fst in Hiff. simpl snd in Ht, Hiff, Hnp.
    assert (Hout : outcome (trace (emit (EvLog INFO AllClientsFinished) s1))
                   = Some ClientsFinished) by apply outcome_clients_finished.
    pose proof (wait_for_clients_truthful env fuel clients services s _ _ Hrun)
      as [(new' & Ht' & Htr) _].
    rewrite Ht in Ht'. apply app_inv_head in Ht'. subst new'.
    destruct (wait_loop_polled env fuel services (dict clients) _ _ _ E)
      as (new1 & Ht1 & Hl).
    assert (Hnew : new = [EvLog INFO Waiting] ++ new1 ++ [EvLog INFO AllClientsFinished]).
    { apply (app_inv_head (trace s)). rewrite <- Ht. simpl trace at 1.
      rewrite Ht1. simpl. now rewrite <- !app_assoc. }
    exists (emit (EvLog INFO AllClientsFinished) s1), new.
    split; [exact Hrun|]. split; [exact Hout|]. split; [exact Ht|].
    split; [apply Hiff; split; [reflexivity | exact Hout]|].
    split; [exact Hnd|]. split; [|split; [exact Hsp | exact Hnp]].
    intros name Hname.
    assert (Hname1 : In name (observed new1)).
    { rewrite Hnew in Hname. rewrite !observed_app in Hname. simpl in Hname.
      now rewrite app_nil_r in Hname. }
    destruct (Hl name Hname1) as (p & code & Hin & Hev).
    assert (Hev' : In (EvPoll (pid p) (Some code)) new).
    { rewrite Hnew. simpl. right. apply in_or_app. left. exact Hev. }
    rewrite Forall_forall in Htr. destruct (Htr _ Hev') as [n Hn].
    exists p, code, n. split; [now apply In_dict|]. split; [exact Hev' | exact Hn].
Qed.

Lemma clients_exit_ends_monitor_witness :
  exists s' new,
    wait_for_clients clients_exit_apart 10
      [worker 2 "K1"; worker 3 "K2"] [worker 0 "S1"; worker 1 "S2"] init = (Ok tt, s') /\
    outcome (trace s') = Some ClientsFinished /\
    trace s' = trace init ++ new /\
    (forall name, In name (names [worker 2 "K1"; worker 3 "K2"]) ->
       In name (observed new)) /\
    NoDup (observed new) /\
    (forall name, In name (observed new) ->
       exists p code n,
         In (name, p) [worker 2 "K1"; worker 3 "K2"] /\
         In (EvPoll (pid p) (Some code)) new /\
         exit_status clients_exit_apart n (pid p) = Some code) /\
    spawns new = [] /\
    next_pid s' = next_pid init.
Proof.
  apply (clients_exit_ends_monitor clients_exit_apart
           [worker 2 "K1"; worker 3 "K2"] [worker 0 "S1"; worker 1 "S2"] init 9 10).
  - intros n _. reflexivity.
  - intros n p H. simpl in H. destruct H as [<-|[<-|[]]]; reflexivity.
  - intros n p Hn H. simpl in H. destruct H as [<-|[<-|[]]]; simpl.
    + do 3 (destruct n as [|n]; [lia|]). discriminate.
    + do 9 (destruct n as [|n]; [lia|]). discriminate.
  - lia.
  - simpl. lia.
Defined.

(** ** The processes a run has created, and the ones its shutdown reaches *)

Lemma creates_ret {A : Type} (a : A) : creates (ret a).
Proof.
  intros s r s' H. inversion H; subst. exists []. rewrite app_nil_r, Nat.sub_diag.
  split; [reflexivity|]. split; [lia | reflexivity].
Qed.

Lemma creates_log (lvl : level) (m : message) : creates (log lvl m).
Proof.
  intros s r s' H. inversion H; subst. exists [EvLog lvl m]. simpl.
  rewrite Nat.sub_diag. split; [reflexivity|]. split; [lia | reflexivity].
Qed.

Lemma creates_bind {A B : Type} (m : M A) (k : A -> M B) :
  creates m -> (forall a, creates (k a)) -> creates (bind m k).
Proof.
  intros Hm Hk s r s' H. apply bind_inv in H.
  destruct H as [(a & s1 & E & H) | [(e & E & _) | (E & _)]].
  - apply Hm in E. apply Hk in H.
    destruct E as (new1 & T1 & L1 & K1). destruct H as (new2 & T2 & L2 & K2).
    exists (new1 ++ new2). rewrite T2, T1, app_assoc.
    split; [reflexivity|]. split; [lia|].
    rewrite children_app, K1, K2.
    replace (next_pid s' - next_pid s)
      with ((next_pid s1 - next_pid s) + (next_pid s' - next_pid s1)) by lia.
    rewrite seq_app. do 2 f_equal. lia.
  - now apply Hm in E.
  - now apply Hm in E.
Qed.

Lemma creates_set_service_procs (v : procs) : creates (set_service_procs v).
Proof.
  intros s r s' H. inversion H; subst. exists []. simpl.
  rewrite app_nil_r, Nat.sub_diag. split; [reflexivity|]. split; [lia | reflexivity].
Qed.

Lemma creates_set_client_procs (v : procs) : creates (set_client_procs v).
Proof.
  intros s r s' H. inversion H; subst. exists []. simpl.
  rewrite app_nil_r, Nat.sub_diag. split; [reflexivity|]. split; [lia | reflexivity].
Qed.

Lemma children_no_spawn (t : list event) : spawns t = [] -> children t = [].
Proof.
  induction t as [|e t IH]; [reflexivity|].
  destruct e; simpl; try exact IH. discriminate.
Qed.

Lemma spawns_no_request (t : list event) :
  (forall cmd, ~ In (RSpawn cmd) (requests t)) -> spawns t = [].
Proof.
  induction t as [|e t IH]; intros H; [reflexivity|].
  destruct e; simpl in *; try (apply IH; exact H);
    try (apply IH; intros cmd Hin; apply (H cmd); now right).
  exfalso. eapply H. left. reflexivity.
Qed.

Lemma stop_requests_no_spawn (l : procs) (cmd : list string) :
  ~ In (RSpawn cmd) (stop_requests l).
Proof.
  unfold stop_requests. intros H.
  apply in_app_or in H. destruct H as [H|H].
  - apply in_map_iff in H. destruct H as (x & Hx & _). discriminate.
  - apply in_app_or in H. destruct H as [[H|[]]|H]; [discriminate|].
    apply in_map_iff in H. destruct H as (x & Hx & _). discriminate.
Qed.

(** A two-phase stop of [cl] and then of [sv] asks every handle of the two
    lists to terminate and kills every one of them. *)
Lemma stops_reach (cl sv : procs) (c : nat) :
  In c (pids (sv ++ cl)) ->
  In (RTerminate c) (stop_requests cl ++ stop_requests sv) /\
  In (RKill c) (stop_requests cl ++ stop_requests sv).
Proof.
  unfold pids. rewrite map_app. intros H. apply in_app_or in H.
  unfold stop_requests. destruct H as [H|H]; split; apply in_or_app.
  - right. apply in_or_app. left. now apply in_map.
  - right. apply in_or_app. right. apply in_or_app. right. now apply in_map.
  - left. apply in_or_app. left. now apply in_map.
  - left. apply in_or_app. right. apply in_or_app. right. now apply in_map.
Qed.

Section Creating.

Variable env : Env.

Lemma creates_sleep (ms : nat) : creates (sleep env ms).
Proof.
  intros s r s' H. apply sleep_any in H.
  destruct H as [[_ ->] | [_ ->]]; eexists [_]; simpl; rewrite Nat.sub_diag;
    (split; [reflexivity|]); (split; [lia | reflexivity]).
Qed.

Lemma creates_Popen_new (cmd : list string) : creates (Popen_new env cmd).
Proof.
  intros s r s' H. unfold Popen_new, syscall in H.
  destruct (interrupted env (tick s)); [|destruct (spawn_error env (tick s))];
    inversion H; subst; eexists [_].
  1, 2: simpl; rewrite Nat.sub_diag;
        (split; [reflexivity|]); (split; [lia | reflexivity]).
  cbn [trace next_pid]. split; [reflexivity|]. split; [lia|].
  replace (S (next_pid s) - next_pid s) with 1 by lia. reflexivity.
Qed.

Lemma creates_start_group_from (group : list (string * string)) : forall started,
  creates (start_group_from env group started).
Proof.
  induction group as [|[node_name script] group IH]; intros started; simpl;
    [apply creates_ret|].
  apply creates_bind.
  - unfold start_node. apply creates_bind; [apply creates_log|].
    intros _. apply creates_Popen_new.
  - intros p. apply creates_bind; [apply creates_sleep | intros _; apply IH].
Qed.

Lemma creates_wait_for_clients (fuel : nat) (clients services : procs) :
  creates (wait_for_clients env fuel clients services).
Proof.
  intros s r s' H.
  destruct (wait_for_clients_records env fuel clients services s)
    as (new & Ht & _ & _ & _ & Hsp & Hnp).
  rewrite H in Ht, Hnp. simpl in Ht, Hnp.
  exists new. rewrite Hnp, Nat.sub_diag.
  split; [exact Ht|]. split; [lia|]. now apply children_no_spawn.
Qed.

Lemma creates_main_try (fuel : nat) : creates (main_try env fuel).
Proof.
  unfold main_try, start_group.
  do 13 (apply creates_bind;
          [first [apply creates_log | apply creates_sleep
                 | apply creates_start_group_from
                 | apply creates_set_service_procs
                 | apply creates_set_client_procs]
          | intros ?]).
  apply creates_wait_for_clients.
Qed.

Opaque NODES CLIENT_NODES.

(** Once the [try] body has bound the client list, both groups have been
    started in full. *)
Lemma main_try_counter (fuel : nat) (s0 : State) (r1 : result unit) (s1 : State) :
  frame s0 = mkFrame None None ->
  main_try env fuel s0 = (r1, s1) ->
  client_procs (frame s1) <> None ->
  next_pid s1 = next_pid s0 + length NODES + length CLIENT_NODES.
Proof.
  intros Hf0 H Hb. unfold main_try in H. rewrite !bind_log in H.
  apply bind_inv in H.
  destruct H as [(sv & s2 & E & H) | [(e & E & ->) | (E & ->)]];
    apply start_group_from_inv in E; simpl in E; destruct E as (Hf & Hr & Hok).
  2: { exfalso. apply Hb. rewrite Hf, Hf0. reflexivity. }
  2: { contradiction. }
  destruct (Hok sv eq_refl) as [-> Hn]. clear Hok Hr.
  unfold bind at 1 in H. unfold set_service_procs at 1 in H.
  rewrite bind_log in H. rewrite Hf, Hf0 in H. simpl in H.
  apply bind_inv in H.
  destruct H as [([] & s3 & E & H) | [(e & E & ->) | (E & ->)]];
    apply sleep_inv in E; simpl in E; destruct E as (Hf3 & Hn3 & Hr3).
  2: { exfalso. apply Hb. rewrite Hf3. reflexivity. }
  2: { contradiction. }
  rewrite !bind_log in H.
  apply bind_inv in H.
  destruct H as [(cl & s4 & E & H) | [(e & E & ->) | (E & ->)]];
    apply start_group_from_inv in E; simpl in E; destruct E as (Hf4 & Hr4 & Hok4).
  2: { exfalso. apply Hb. rewrite Hf4, Hf3. reflexivity. }
  2: { contradiction. }
  destruct (Hok4 cl eq_refl) as [-> Hn4]. clear Hok4 Hr4.
  unfold bind at 1 in H. unfold set_client_procs at 1 in H.
  rewrite bind_log in H.
  apply wait_for_clients_inv in H. simpl in H. destruct H as [_ Hn5].
  rewrite Hn5, Hn4, Hn3, Hn. reflexivity.
Qed.

Transparent NODES CLIENT_NODES.

(** When the client list is bound at the start of the shutdown, the two
    lists hold every process the run has created. *)
Lemma bound_lists_cover (fuel : nat) :
  client_procs (frame (at_shutdown env fuel)) <> None ->
  children (trace (at_shutdown env fuel))
  = pids (service_list env fuel ++ client_list env fuel).
Proof.
  unfold service_list, client_list, at_shutdown.
  destruct (main_try env fuel init) as [r1 s1] eqn:E. simpl snd. intros Hb.
  pose proof (main_try_counter fuel init r1 s1 eq_refl E Hb) as Hn.
  pose proof (creates_main_try fuel init r1 s1 E) as (new & Ht & _ & Hc).
  apply main_try_frame in E; [|reflexivity].
  destruct E as [[Hf _] | [[Hf _] | Hf]];
    [exfalso; apply Hb; now rewrite Hf .. |].
  rewrite Hf. simpl bound. simpl in Ht. rewrite Ht, Hc, Hn.
  reflexivity.
Qed.

Lemma ir_stop_processes (l : procs) : interrupt_raises (stop_processes env l).
Proof.
  intros s r s' H.
  destruct (stop_processes_any env l s) as (s1 & new & Hs & Ht & _ & _ & Hc).
  rewrite H in Hs, Hc. simpl in Hs, Hc. subst s1.
  exists new. split; [exact Ht|]. rewrite <- interrupted_in_spec.
  destruct Hc as [(-> & Hi & _) | (-> & Hi & _)]; rewrite Hi;
    split; (discriminate || reflexivity).
Qed.

Lemma ir_main_finally : interrupt_raises (main_finally env).
Proof.
  unfold main_finally.
  repeat (apply ir_bind; [apply ir_log | intros _]).
  apply ir_bind; [intros s r s' H; now apply ir_stop_processes in H | intros _].
  apply ir_bind; [intros s r s' H; now apply ir_stop_processes in H | intros _].
  apply ir_log.
Qed.

End Creating.

(** ** Interrupts and the exit status of [main] *)

(** The run of [main] when the SIGINT surfaces at the end of the [try] body,
    after its last call: the handler clause runs and then the whole shutdown. *)
Lemma main_interrupted_late_run (env : Env) (fuel : nat) :
  guarded_result env fuel = Ok tt ->
  quiet env (tick (at_shutdown env fuel)) (shutdown_calls env fuel) = true ->
  exists s2 new,
    main_interrupted_late env fuel init = (Ok tt, s2) /\
    trace s2 = trace (at_shutdown env fuel) ++ new /\
    In EvSigint new /\
    In (EvLog INFO (Text "Shutdown requested by user.")) new /\
    requests new
    = stop_requests (client_list env fuel) ++ stop_requests (service_list env fuel) /\
    last new EvSigint = EvLog INFO (Text "All nodes stopped.").
Proof.
  unfold shutdown_calls, client_list, service_list, guarded_result, at_shutdown,
    main_interrupted_late, try_finally, try_except, bind.
  destruct (main_try env fuel init) as [r1 s1]. simpl fst. simpl snd.
  intros -> Hq. unfold sigint_here. cbn [is_KeyboardInterrupt]. unfold log at 1.
  rewrite main_finally_run by exact Hq.
  eexists.
  exists ([EvSigint; EvLog INFO (Text "Shutdown requested by user.")]
          ++ [EvLog INFO (Text (nl ++ rule));
              EvLog INFO (Text "SHUTTING DOWN DISTRIBUTED SYSTEM");
              EvLog INFO (Text rule)]
          ++ stop_trace env (tick s1) (bound (client_procs (frame s1)))
          ++ stop_trace env (tick s1 + (2 * length (bound (client_procs (frame s1))) + 1))
                        (bound (service_procs (frame s1)))
          ++ [EvLog INFO (Text "All nodes stopped.")]).
  split; [reflexivity|]. split.
  - simpl trace. rewrite <- !app_assoc. reflexivity.
  - split; [now left|]. split; [right; now left|].
    apply (shutdown_added env (tick s1) (bound (client_procs (frame s1)))
             (bound (service_procs (frame s1)))
             [EvSigint; EvLog INFO (Text "Shutdown requested by user.")] eq_refl).
Qed.

(** How a run of [main] that ends has ended, read from its trace:
    [KeyboardInterrupt] leaves it exactly when a SIGINT was delivered after
    the guarded part, that is, during the [finally] clause; otherwise
    [OSError] leaves it exactly when a process creation failed; otherwise it
    returns. *)
Lemma main_ends (env : Env) (fuel : nat) :
  fst (main env fuel init) <> Pending ->
  exists new,
    trace (snd (main env fuel init)) = trace (at_shutdown env fuel) ++ new /\
    (fst (main env fuel init) = Raise KeyboardInterrupt <->
     interrupted_in new = true) /\
    (fst (main env fuel init) = Raise OSError <->
     interrupted_in new = false /\ failed_in (trace (at_shutdown env fuel)) = true) /\
    (fst (main env fuel init) = Ok tt <->
     interrupted_in new = false /\ failed_in (trace (at_shutdown env fuel)) = false).
Proof.
  unfold main, try_finally, try_except, at_shutdown.
  destruct (main_try env fuel init) as [r1 s1] eqn:E. simpl snd.
  pose proof (main_try_calls env fuel init _ _ E) as (new0 & Ht0 & _ & Hfail).
  simpl in Ht0. rewrite <- Ht0 in Hfail. clear new0 Ht0.
  assert (Hfin : forall s r s', main_finally env s = (r, s') ->
            exists new, trace s' = trace s ++ new /\
              ((r = Ok tt /\ interrupted_in new = false) \/
               (r = Raise KeyboardInterrupt /\ interrupted_in new = true))).
  { intros s r s' F.
    pose proof (main_finally_any env s _ s' F) as (n0 & rest & _ & _ & Hr & _).
    apply ir_main_finally in F. destruct F as (new & Ht & Hi).
    exists new. split; [exact Ht|]. destruct Hr as [Hr|Hr]; subst r.
    - left. split; [reflexivity|].
      destruct (interrupted_in new) eqn:B; [|reflexivity].
      apply interrupted_in_spec in B. apply Hi in B. discriminate.
    - right. split; [reflexivity|]. apply interrupted_in_spec. now apply Hi. }
  destruct r1 as [[]|[|]|]; cbn [is_KeyboardInterrupt].
  - assert (Hf : failed_in (trace s1) = false).
    { destruct (failed_in (trace s1)); [|reflexivity].
      destruct Hfail as [_ Hx]. discriminate (Hx eq_refl). }
    destruct (main_finally env s1) as [rf sf] eqn:F.
    destruct (Hfin _ _ _ F) as (new & Ht & [[-> Hi]|[-> Hi]]); simpl; intros _;
      exists new; rewrite Hi, Hf; (split; [exact Ht|]);
      repeat split; intros; try discriminate; intuition congruence.
  - assert (Hf : failed_in (trace s1) = false).
    { destruct (failed_in (trace s1)); [|reflexivity].
      destruct Hfail as [_ Hx]. discriminate (Hx eq_refl). }
    unfold log. cbv beta iota.
    destruct (main_finally env (emit (EvLog INFO (Text "Shutdown requested by user.")) s1))
      as [rf sf] eqn:F.
    destruct (Hfin _ _ _ F) as (new & Ht & [[-> Hi]|[-> Hi]]); simpl; intros _;
      exists (EvLog INFO (Text "Shutdown requested by user.") :: new);
      change (interrupted_in (EvLog INFO (Text "Shutdown requested by user.") :: new))
        with (interrupted_in new);
      rewrite Hi, Hf;
      (split; [rewrite Ht; simpl; now rewrite <- app_assoc|]);
      repeat split; intros; try discriminate; intuition congruence.
  - assert (Hf : failed_in (trace s1) = true) by now apply Hfail.
    destruct (main_finally env s1) as [rf sf] eqn:F.
    destruct (Hfin _ _ _ F) as (new & Ht & [[-> Hi]|[-> Hi]]); simpl; intros _;
      exists new; rewrite Hi, Hf; (split; [exact Ht|]);
      repeat split; intros; try discriminate; intuition congruence.
  - simpl. intros H. now contradiction H.
Qed.

(** A SIGINT while the services are being started is caught and [main]
    returns, but the handles created so far are in no list that [main] has
    bound: three processes were created and none is sent a signal. *)
Lemma sigint_during_start_reaches_nobody :
  fst (main (sigint_at 5) 3 init) = Ok tt /\
  children (trace (snd (main (sigint_at 5) 3 init))) = [0; 1; 2] /\
  filter is_signal (requests (trace (snd (main (sigint_at 5) 3 init)))) = [].
Proof. vm_compute. repeat split. Qed.

(** A SIGINT that surfaces after the last poll of the monitor, still inside
    the [try]: both clients had finished, the interrupt is caught, every
    process is stopped and [main] returns. *)
Lemma sigint_after_last_poll_is_caught :
  guarded_result (clients_done_sigint 1000) 1 = Ok tt /\
  fst (main_interrupted_late (clients_done_sigint 1000) 1 init) = Ok tt /\
  filter is_signal
    (requests (trace (snd (main_interrupted_late (clients_done_sigint 1000) 1 init))))
  = [RTerminate 11; RTerminate 12; RKill 11; RKill 12]
    ++ map RTerminate (seq 0 11) ++ map RKill (seq 0 11).
Proof. vm_compute. repeat split. Qed.


